(** * Verification of the OpenStack cluster destroyer
    ([pkg/destroy/openstack/openstack.go]).

    The Go code is embedded shallowly: tag maps are finite maps, the calls
    to the resource provider are steps of a small state monad that records
    every call in a trace, and the goroutines of [Run] are an interleaving
    step relation. *)

From stdpp Require Import gmap strings list fin_maps pretty.
From Stdlib Require Import ZArith Lia.

Open Scope string_scope.
Open Scope list_scope.

(* [set_solver] and [naive_solver] clear some hypotheses twice. *)
#[local] Set Warnings "-clear-no-such-hyp".

(** ** Data model *)

(** [type Filter map[string]string] and the [Tags] of [ObjectWithTags] are
    Go maps from string to string. *)
Abbreviation Filter := (gmap string string).

Record ObjectWithTags := mkObjectWithTags {
  ID : string;
  Tags : gmap string string
}.

(** Go's [for key, val := range m] visits every entry of the map once, in an
    order the language leaves unspecified.  The model visits the entries in
    the order of [map_to_list]; [range_order_irrelevant_keys] and
    [range_order_irrelevant_values] below show that the loops of
    [filterObjects] do not depend on that choice. *)
Definition rangeMap (m : gmap string string) : list (string * string) :=
  map_to_list m.

(** Reading a Go map at a missing key yields the zero value. *)
Definition index (m : gmap string string) (key : string) : string :=
  default "" (m !! key).

(** ** filterObjects *)

(** First inner loop of [filterObjects]: [allTagsFound] starts [true] and the
    loop breaks with [false] at the first filter key the object lacks. *)
Fixpoint allTagsFound (entries : list (string * string))
    (tags : gmap string string) : bool :=
  match entries with
  | [] => true
  | (key, _) :: rest =>
      match tags !! key with
      | None => false
      | Some _ => allTagsFound rest tags
      end
  end.

(** Second inner loop: [valuesMatch] starts [true] and the loop breaks with
    [false] at the first key whose value differs. *)
Fixpoint valuesMatch (entries : list (string * string))
    (tags : gmap string string) : bool :=
  match entries with
  | [] => true
  | (key, val) :: rest =>
      if decide (index tags key = val) then valuesMatch rest tags else false
  end.

Definition filterObjects (osObjects : list ObjectWithTags)
    (filters : gmap string string) : list ObjectWithTags :=
  let objectsWithTags :=
    List.filter (λ object, allTagsFound (rangeMap filters) (Tags object))
      osObjects in
  let filteredObjects :=
    List.filter (λ object, valuesMatch (rangeMap filters) (Tags object))
      objectsWithTags in
  filteredObjects.

(** The matching predicate of the specification: the object carries every
    key of the filter with an equal value. *)
Definition tagsMatch (filters tags : gmap string string) : Prop :=
  ∀ key val, filters !! key = Some val → tags !! key = Some val.

(** ** Provider errors

    Modelled from the spec: the provider bindings (gophercloud) are not part
    of the sources.  Section 6 of the specification distinguishes, for every
    call, success from not-found, conflict and other errors, and an absent
    optional service from a transient error; the source tells them apart
    with [gophercloud.ResponseCodeIs(err, status)], which looks through
    wrapped errors, and with [errors.As(err, &ErrEndpointNotFound)]. *)
Inductive error :=
| ErrUnexpectedResponseCode (actual : Z)
| ErrEndpointNotFound
| ErrWaitTimeout
| ErrMessage (msg : string)
| ErrWrap (msg : string) (err : error).

Definition StatusUnauthorized : Z := 401.
Definition StatusForbidden : Z := 403.
Definition StatusNotFound : Z := 404.
Definition StatusConflict : Z := 409.

Fixpoint ResponseCodeIs (err : error) (status : Z) : bool :=
  match err with
  | ErrUnexpectedResponseCode actual => (actual =? status)%Z
  | ErrWrap _ inner => ResponseCodeIs inner status
  | _ => false
  end.

Fixpoint IsEndpointNotFound (err : error) : bool :=
  match err with
  | ErrEndpointNotFound => true
  | ErrWrap _ inner => IsEndpointNotFound inner
  | _ => false
  end.

(** [strings.HasPrefix(s, prefix)]. *)
Definition HasPrefix (s prefix : string) : bool := String.prefix prefix s.

(** [strings.Join(elems, sep)]. *)
Fixpoint Join (elems : list string) (sep : string) : string :=
  match elems with
  | [] => ""
  | [e] => e
  | e :: rest => e +:+ sep +:+ Join rest sep
  end.

(** ** Provider records, one module per provider package; only the fields
    the destroyer reads are kept. *)

Module servers.
Record Server := mk { ID : string; Metadata : gmap string string }.
End servers.

Module servergroups.
Record ServerGroup := mk { ID : string; Name : string }.
End servergroups.

Module volumes.
Record Volume := mk {
  ID : string; Name : string; Metadata : gmap string string }.
End volumes.

Module networks.
Record Network := mk { ID : string; Subnets : list string }.
Record ListOpts := mkOpts { optTags : string; optTagsAny : string }.
End networks.

Module subnets.
Record Subnet := mk { ID : string }.
End subnets.

Module routers.
Record Router := mk { ID : string; Tags : list string }.
End routers.

Module floatingips.
Record FloatingIP := mk { ID : string; PortID : string }.
Record ListOpts := mkOpts { optPortID : string }.
End floatingips.

Module sg.
Record SecGroup := mk { ID : string; Name : string }.
End sg.

Module trunks.
Record Trunk := mk { ID : string }.
End trunks.

Module loadbalancers.
Record LoadBalancer := mk {
  ID : string; Description : string; VipPortID : string }.
End loadbalancers.

Module ports.
Record IP := mkIP { SubnetID : string; IPAddress : string }.
Record Port := mk {
  ID : string;
  DeviceID : string;
  SecurityGroups : list string;
  FixedIPs : list IP
}.
Record ListOpts := mkOpts {
  optNetworkID : string; optDeviceID : string; optTagsAny : string }.
End ports.

Module objects.
(** [Errors] holds, per failed object, its name and the error message. *)
Record BulkDeleteResponse := mk {
  NumberDeleted : Z;
  NumberNotFound : Z;
  Errors : list (string * string)
}.
End objects.

(** ** Provider calls and the call trace *)

(** Every request the destroyer sends to the provider.  [List] constructors
    stand for [List(...).AllPages] followed by the [Extract...] call. *)
Inductive Call :=
| NewServiceClient (service : string)
| ServersList
| ServersDelete (id : string)
| ServerGroupsList
| ServerGroupsDelete (id : string)
| VolumesList
| VolumesDelete (id : string)
| NetworksList (opts : networks.ListOpts)
| NetworksDelete (id : string)
| AttributestagsDelete (resource : string) (id : string) (tag : string)
| SubnetsList (tagsAny : string)
| LoadBalancersList (vipNetworkID : string)
| LoadBalancersDelete (id : string) (cascade : bool)
| FloatingIPsList (opts : floatingips.ListOpts)
| FloatingIPsUpdate (id : string)
| FloatingIPsDelete (id : string)
| SecGroupsList
| SecGroupsDelete (id : string)
| PortsList (opts : ports.ListOpts)
| PortsUpdate (id : string) (securityGroups : list string)
| PortsDelete (id : string)
| TrunksList (portID : string)
| TrunksDelete (id : string)
| RoutersRemoveInterface (routerID : string) (subnetID : string)
| ObjectsBulkDelete (container : string) (objectNames : list string).

(** What the provider answers: nothing but success, an error, or a payload. *)
Inductive Reply :=
| Done
| Failed (err : error)
| Servers (l : list servers.Server)
| ServerGroups (l : list servergroups.ServerGroup)
| Volumes (l : list volumes.Volume)
| Networks (l : list networks.Network)
| Subnets (l : list subnets.Subnet)
| LoadBalancers (l : list loadbalancers.LoadBalancer)
| FloatingIPs (l : list floatingips.FloatingIP)
| SecGroups (l : list sg.SecGroup)
| Ports (l : list ports.Port)
| Trunks (l : list trunks.Trunk)
| BulkDeleted (resp : objects.BulkDeleteResponse).

Definition Trace := list Call.

(** The provider is any deterministic function of the calls made so far and
    the current call: this covers every stateful cloud. *)
Definition Cloud := Trace → Call → Reply.

(** Computations that talk to the provider thread the trace of calls, in
    chronological order. *)
Definition M (A : Type) : Type := Trace → A * Trace.

Definition ret {A} (a : A) : M A := λ t, (a, t).

Definition bind {A B} (m : M A) (k : A → M B) : M B :=
  λ t, let (a, t') := m t in k a t'.

Notation "'let!' x ':=' m 'in' k" := (bind m (λ x, k))
  (at level 10, x name, m at level 100, k at level 200,
   format "'[v' 'let!'  x  ':='  m  'in' '/' k ']'").

Definition call (cloud : Cloud) (c : Call) : M Reply :=
  λ t, (cloud t c, (t ++ [c])%list).

(** The error of a call whose payload is ignored ([ExtractErr], or
    [_, err := ...Extract()]). *)
Definition errOf (r : Reply) : option error :=
  match r with
  | Failed err => Some err
  | _ => None
  end.

(** The Go return type [(bool, error)]. *)
Definition Result : Type := bool * option error.

(** ** Deletion tasks: servers, server groups, volumes *)

Section Tasks.

Variable cloud : Cloud.

(** [strings.ToLower] follows the Unicode case tables (it maps, for
    instance, U+0130 to the ASCII letter i); it is taken as a parameter. *)
Variable ToLower : string → string.

(** The loop of [deleteServers] over [filteredServers], started with the
    current value of [numberDeleted]. *)
Fixpoint deleteServers_loop (filteredServers : list ObjectWithTags)
    (numberDeleted : nat) : M nat :=
  match filteredServers with
  | [] => ret numberDeleted
  | server :: rest =>
      let! r := call cloud (ServersDelete (ID server)) in
      match errOf r with
      | Some err =>
          if negb (ResponseCodeIs err StatusNotFound)
          then (* continue *) deleteServers_loop rest numberDeleted
          else deleteServers_loop rest (S numberDeleted)
      | None => deleteServers_loop rest (S numberDeleted)
      end
  end.

Definition deleteServers (filter : gmap string string) : M Result :=
  let! conn := call cloud (NewServiceClient "compute") in
  match errOf conn with
  | Some _ => ret (false, None)
  | None =>
      let! r := call cloud ServersList in
      match r with
      | Servers allServers =>
          let serverObjects :=
            map (λ server, mkObjectWithTags (servers.ID server)
                             (servers.Metadata server)) allServers in
          let filteredServers := filterObjects serverObjects filter in
          let numberToDelete := length filteredServers in
          let! numberDeleted := deleteServers_loop filteredServers 0 in
          ret ((numberDeleted =? numberToDelete)%nat, None)
      | _ => ret (false, None)
      end
  end.

(** The loop shared by [deleteServerGroups], [deleteVolumes],
    [deleteVolumeSnapshots] and [deleteShares]: the first entry of the
    filter, in the order of the [range], whose lower-cased key is
    [openshiftclusterid] gives the cluster ID; [clusterID] keeps its zero
    value when there is none. *)
Fixpoint clusterIDLoop (entries : list (string * string)) : string :=
  match entries with
  | [] => ""
  | (k, v) :: rest =>
      if decide (ToLower k = "openshiftclusterid") then v
      else clusterIDLoop rest
  end.

Definition filteredGroups (allServerGroups : list servergroups.ServerGroup)
    (clusterID : string) : list servergroups.ServerGroup :=
  List.filter
    (λ serverGroup, HasPrefix (servergroups.Name serverGroup) clusterID)
    allServerGroups.

Fixpoint deleteServerGroups_loop
    (groups : list servergroups.ServerGroup) (numberDeleted : nat) : M nat :=
  match groups with
  | [] => ret numberDeleted
  | serverGroup :: rest =>
      let! r := call cloud (ServerGroupsDelete (servergroups.ID serverGroup)) in
      match errOf r with
      | Some err =>
          if ResponseCodeIs err StatusNotFound
          then (* continue *) deleteServerGroups_loop rest numberDeleted
          else deleteServerGroups_loop rest (S numberDeleted)
      | None => deleteServerGroups_loop rest (S numberDeleted)
      end
  end.

Definition deleteServerGroups (filter : gmap string string) : M Result :=
  let clusterID := clusterIDLoop (rangeMap filter) in
  let! conn := call cloud (NewServiceClient "compute") in
  match errOf conn with
  | Some _ => ret (false, None)
  | None =>
      let! r := call cloud ServerGroupsList in
      match r with
      | ServerGroups allServerGroups =>
          let groups := filteredGroups allServerGroups clusterID in
          let numberToDelete := length groups in
          let! numberDeleted := deleteServerGroups_loop groups 0 in
          ret ((numberDeleted =? numberToDelete)%nat, None)
      | _ => ret (false, None)
      end
  end.

Definition cinderCSIClusterIDKey : string := "cinder.csi.openstack.org/cluster".

(** The candidate loop of [deleteVolumes]: a volume is appended once for its
    name prefix and once more for its CSI metadata. *)
Fixpoint volumeIDs (allVolumes : list volumes.Volume) (clusterID : string)
    : list string :=
  match allVolumes with
  | [] => []
  | volume :: rest =>
      (if HasPrefix (volumes.Name volume) clusterID
       then [volumes.ID volume] else []) ++
      (match volumes.Metadata volume !! cinderCSIClusterIDKey with
       | Some val => if decide (val = clusterID)
                     then [volumes.ID volume] else []
       | None => []
       end) ++
      volumeIDs rest clusterID
  end%list.

Fixpoint deleteVolumes_loop (ids : list string) (numberDeleted : nat)
    : M nat :=
  match ids with
  | [] => ret numberDeleted
  | volumeID :: rest =>
      let! r := call cloud (VolumesDelete volumeID) in
      match errOf r with
      | Some err =>
          if negb (ResponseCodeIs err StatusNotFound)
          then (* continue *) deleteVolumes_loop rest numberDeleted
          else deleteVolumes_loop rest (S numberDeleted)
      | None => deleteVolumes_loop rest (S numberDeleted)
      end
  end.

Definition deleteVolumes (filter : gmap string string) : M Result :=
  let clusterID := clusterIDLoop (rangeMap filter) in
  let! conn := call cloud (NewServiceClient "volume") in
  match errOf conn with
  | Some _ => ret (false, None)
  | None =>
      let! r := call cloud VolumesList in
      match r with
      | Volumes allVolumes =>
          let ids := volumeIDs allVolumes clusterID in
          let numberToDelete := length ids in
          let! numberDeleted := deleteVolumes_loop ids 0 in
          ret ((numberDeleted =? numberToDelete)%nat, None)
      | _ => ret (false, None)
      end
  end.

End Tasks.

(** ASCII lower-casing, the restriction of [strings.ToLower] to ASCII keys;
    it instantiates the parameter in the examples. *)
Definition lowerChar (c : Ascii.ascii) : Ascii.ascii :=
  let n := Ascii.nat_of_ascii c in
  if ((65 <=? n) && (n <=? 90))%nat then Ascii.ascii_of_nat (n + 32) else c.

Fixpoint asciiToLower (s : string) : string :=
  match s with
  | EmptyString => EmptyString
  | String c rest => String (lowerChar c) (asciiToLower rest)
  end.

(** A project holding one server group of cluster [abc]; the server-group
    delete call answers with [deleteReply]. *)
Definition oneGroupCloud (deleteReply : Reply) : Cloud :=
  λ _ c,
    match c with
    | ServerGroupsList => ServerGroups [servergroups.mk "g1" "abc-master"]
    | ServersList => Servers [servers.mk "s1" {[ "openshiftClusterID" := "abc" ]}]
    | ServerGroupsDelete _ | ServersDelete _ => deleteReply
    | _ => Done
    end.

Definition abcFilter : gmap string string := {[ "openshiftClusterID" := "abc" ]}.

(** ** Retry wrapper and primary-network untagging *)

Section Untag.

Variable cloud : Cloud.

(** Modelled from the spec: [wait.ExponentialBackoff] is a library function
    outside the sources.  Section 4.3: the task is invoked repeatedly until
    it returns [(true, nil)]; a non-nil error aborts at once and is
    propagated; when the maximum number of attempts is used up while the
    task keeps returning [(false, nil)] the wrapper reports a timeout.  The
    sleeps between attempts are not modelled. *)
Fixpoint ExponentialBackoff (steps : nat) (condition : M Result)
    : M (option error) :=
  match steps with
  | 0 => ret (Some ErrWaitTimeout)
  | S steps' =>
      let! r := condition in
      match r with
      | (_, Some err) => ret (Some err)
      | (true, None) => ret None
      | (false, None) => ExponentialBackoff steps' condition
      end
  end.

Definition untagPrimaryNetwork (infraID : string) : M Result :=
  let networkTag := infraID +:+ "-primaryClusterNetwork" in
  let! conn := call cloud (NewServiceClient "network") in
  match errOf conn with
  | Some _ => ret (false, None)
  | None =>
      let listOpts := networks.mkOpts networkTag "" in
      let! r := call cloud (NetworksList listOpts) in
      match r with
      | Networks allNetworks =>
          if (1 <? length allNetworks)%nat
          then ret (false, Some (ErrMessage
                      ("more than one network with tag " +:+ networkTag)))
          else
            match allNetworks with
            | [] => ret (true, None)
            | network :: _ =>
                let! d := call cloud (AttributestagsDelete "networks"
                                        (networks.ID network) networkTag) in
                match errOf d with
                | Some _ => ret (false, None)
                | None => ret (true, None)
                end
            end
      | _ => ret (false, None)
      end
  end.

Definition untagRunner (infraID : string) : M (option error) :=
  let! err := ExponentialBackoff 25 (untagPrimaryNetwork infraID) in
  match err with
  | Some ErrWaitTimeout => ret (Some ErrWaitTimeout)
  | Some e => ret (Some (ErrWrap "unrecoverable error" e))
  | None => ret None
  end.

End Untag.

(** A cloud whose network list answers [nets] and whose tag-delete call
    answers [tagReply]. *)
Definition networksCloud (nets : list networks.Network) (tagReply : Reply)
    : Cloud :=
  λ _ c,
    match c with
    | NetworksList _ => Networks nets
    | AttributestagsDelete _ _ _ => tagReply
    | _ => Done
    end.

Definition net1 : networks.Network := networks.mk "n1" ["sub1"].
Definition net2 : networks.Network := networks.mk "n2" [].

(** ** Bulk object deletion (the unit queued by [deleteContainers]) *)

(** How the queued unit ends: the [for len(objectsOnPage) > 0] guard fails,
    the unit returns after a failed call, the slice expression
    [objectsOnPage[n:]] is out of range, or the model runs out of fuel (the
    Go loop has no bound of its own). *)
Inductive LoopEnd := BatchEmpty | ReturnedOnError | SlicePanic | OutOfFuel.

Definition objectError (e : string * string) : error :=
  ErrMessage ("cannot delete object " +:+ fst e +:+ ": " +:+ snd e).

Section BulkDelete.

Variable cloud : Cloud.

(** [errCh] collects, in order, the errors the unit has sent on the error
    channel. *)
Fixpoint bulkDeleteLoop (fuel : nat) (container : string)
    (objectsOnPage : list string) (errCh : list error)
    : M (LoopEnd * list error) :=
  match fuel with
  | 0 => ret (OutOfFuel, errCh)
  | S fuel' =>
      match objectsOnPage with
      | [] => ret (BatchEmpty, errCh)
      | _ :: _ =>
          let! r := call cloud (ObjectsBulkDelete container objectsOnPage) in
          match r with
          | BulkDeleted resp =>
              (* the errors of the response are sent, and the unit goes on *)
              let errCh' :=
                (errCh ++ map objectError (objects.Errors resp))%list in
              let n := (objects.NumberDeleted resp +
                        objects.NumberNotFound resp)%Z in
              if ((n <? 0) || (Z.of_nat (length objectsOnPage) <? n))%Z
              then ret (SlicePanic, errCh')
              else bulkDeleteLoop fuel' container
                     (drop (Z.to_nat n) objectsOnPage) errCh'
          | Failed err => ret (ReturnedOnError, (errCh ++ [err])%list)
          | _ => ret (ReturnedOnError,
                      (errCh ++ [ErrMessage "unexpected response body"])%list)
          end
      end
  end.

End BulkDelete.

(** The batches sent to the bulk-delete call, in order. *)
Definition bulkBatches (t : Trace) : list (list string) :=
  omap (λ c, match c with
             | ObjectsBulkDelete _ names => Some names
             | _ => None
             end) t.

(** A provider that deletes the first object of a batch and reports a
    conflict on the second one; a batch of one object is the conflicting
    object and is never deleted. *)
Definition conflictCloud : Cloud :=
  λ _ c,
    match c with
    | ObjectsBulkDelete _ [a; b] =>
        BulkDeleted (objects.mk 1 0 [(b, "409 Conflict")])
    | ObjectsBulkDelete _ [b] =>
        BulkDeleted (objects.mk 0 0 [(b, "409 Conflict")])
    | ObjectsBulkDelete _ _ => BulkDeleted (objects.mk 0 0 [])
    | _ => Done
    end.

(** ** Router interface removal *)

(** [filterTags]: one [key=value] string per entry of the filter. *)
Definition filterTags (filters : gmap string string) : list string :=
  map (λ kv, Join [fst kv; snd kv] "=") (rangeMap filters).

Fixpoint isClusterRouter (clusterTag : string) (tags : list string) : bool :=
  match tags with
  | [] => false
  | tag :: rest =>
      if decide (clusterTag = tag) then true
      else isClusterRouter clusterTag rest
  end.

Fixpoint isClusterSubnet (subnets : list subnets.Subnet) (subnetID : string)
    : bool :=
  match subnets with
  | [] => false
  | subnet :: rest =>
      if decide (subnets.ID subnet = subnetID) then true
      else isClusterSubnet rest subnetID
  end.

(** The variables the two nested loops of [removeRouterInterfaces] update. *)
Record RemoveState := mkRemoveState {
  numberDeleted : nat;
  customInterfaces : list ports.Port;
  removedSubnets : gmap string bool
}.

(** [removedSubnets[id]], with Go's zero value for a missing key. *)
Definition wasRemoved (st : RemoveState) (subnetID : string) : bool :=
  default false (removedSubnets st !! subnetID).

Section RouterInterfaces.

Variable cloud : Cloud.

(** The inner loop over [port.FixedIPs]; [None] is the [return false, nil]
    in the middle of the loop. *)
Fixpoint fixedIPsLoop (routerID : string) (clusterRouter : bool)
    (allSubnets : list subnets.Subnet) (port : ports.Port)
    (fixedIPs : list ports.IP) (st : RemoveState) : M (option RemoveState) :=
  match fixedIPs with
  | [] => ret (Some st)
  | IP :: rest =>
      if negb clusterRouter &&
         negb (isClusterSubnet allSubnets (ports.SubnetID IP))
      then
        (* custom interface: remember the port and continue *)
        fixedIPsLoop routerID clusterRouter allSubnets port rest
          (mkRemoveState (numberDeleted st)
             (customInterfaces st ++ [port])%list (removedSubnets st))
      else if negb (wasRemoved st (ports.SubnetID IP)) then
        let! r := call cloud
                    (RoutersRemoveInterface routerID (ports.SubnetID IP)) in
        let st' :=
          mkRemoveState (S (numberDeleted st)) (customInterfaces st)
            (<[ports.SubnetID IP := true]> (removedSubnets st)) in
        match errOf r with
        | Some err =>
            if negb (ResponseCodeIs err StatusNotFound)
            then ret None
            else fixedIPsLoop routerID clusterRouter allSubnets port rest st'
        | None => fixedIPsLoop routerID clusterRouter allSubnets port rest st'
        end
      else fixedIPsLoop routerID clusterRouter allSubnets port rest st
  end.

(** The outer loop over [allPorts]. *)
Fixpoint routerPortsLoop (routerID : string) (clusterRouter : bool)
    (allSubnets : list subnets.Subnet) (allPorts : list ports.Port)
    (st : RemoveState) : M (option RemoveState) :=
  match allPorts with
  | [] => ret (Some st)
  | port :: rest =>
      let! r := fixedIPsLoop routerID clusterRouter allSubnets port
                  (ports.FixedIPs port) st in
      match r with
      | None => ret None
      | Some st' => routerPortsLoop routerID clusterRouter allSubnets rest st'
      end
  end.

Definition removeRouterInterfaces (filter : gmap string string)
    (router : routers.Router) : M Result :=
  let portListOpts := ports.mkOpts "" (routers.ID router) "" in
  let! rp := call cloud (PortsList portListOpts) in
  match rp with
  | Ports allPorts =>
      let tags := filterTags filter in
      let! rs := call cloud (SubnetsList (Join tags ",")) in
      match rs with
      | Subnets allSubnets =>
          let clusterTag :=
            "openshiftClusterID=" +:+ index filter "openshiftClusterID" in
          let clusterRouter :=
            isClusterRouter clusterTag (routers.Tags router) in
          let numberToDelete := Z.of_nat (length allPorts) in
          let! r := routerPortsLoop (routers.ID router) clusterRouter
                      allSubnets allPorts (mkRemoveState 0 [] ∅) in
          match r with
          | None => ret (false, None)
          | Some st =>
              let numberToDelete :=
                (numberToDelete - Z.of_nat (length (customInterfaces st)))%Z in
              ret ((numberToDelete =? Z.of_nat (numberDeleted st))%Z, None)
          end
      | Failed err =>
          ret (false, Some (ErrWrap "failed to list subnets list" err))
      | _ =>
          ret (false, Some (ErrWrap "failed to extract subnets list"
                              (ErrMessage "unexpected response body")))
      end
  | Failed err => ret (false, Some (ErrWrap "failed to get ports list" err))
  | _ =>
      ret (false, Some (ErrWrap "failed to extract ports list"
                          (ErrMessage "unexpected response body")))
  end.

(** Every call of the list answers without error or with not-found, when
    the calls are made in order after the trace [t]. *)
Fixpoint answeredOrGone (t : Trace) (calls : list Call) : bool :=
  match calls with
  | [] => true
  | c :: rest =>
      match errOf (cloud t c) with
      | None => true
      | Some err => ResponseCodeIs err StatusNotFound
      end && answeredOrGone (t ++ [c])%list rest
  end.

End RouterInterfaces.

(** The fixed IPs of a port that the loop skips: the router is foreign and
    the subnet is not in the list of cluster-tagged subnets. *)
Definition customIPs (clusterRouter : bool) (allSubnets : list subnets.Subnet)
    (port : ports.Port) : list ports.IP :=
  List.filter
    (λ IP, negb clusterRouter &&
           negb (isClusterSubnet allSubnets (ports.SubnetID IP)))
    (ports.FixedIPs port).

(** A foreign router with one interface on the cluster subnet [sub1] (two
    fixed IPs) and one interface on the user's subnet [user1]. *)
Definition foreignRouter : routers.Router := routers.mk "r1" ["user-tag"].

Definition foreignRouterCloud : Cloud :=
  λ _ c,
    match c with
    | PortsList _ =>
        Ports [ports.mk "p1" "r1" []
                 [ports.mkIP "sub1" "10.0.0.1"; ports.mkIP "sub1" "10.0.0.2"];
               ports.mk "p2" "r1" [] [ports.mkIP "user1" "192.168.0.1"]]
    | SubnetsList _ => Subnets [subnets.mk "sub1"]
    | _ => Done
    end.

(** Loop invariant of [removeRouterInterfaces]: [removed] lists, without
    repetition, the subnets detached so far; they are the keys set in
    [removedSubnets], and [numberDeleted] counts them. *)
Definition removeInv (removed : list string) (st : RemoveState) : Prop :=
  NoDup removed
  ∧ (∀ subnetID, wasRemoved st subnetID = true ↔ subnetID ∈ removed)
  ∧ numberDeleted st = length removed.

(** The ports appended to [customInterfaces] by a complete run of the loops:
    one entry per skipped fixed IP. *)
Definition customInterfacesOf (clusterRouter : bool)
    (allSubnets : list subnets.Subnet) (allPorts : list ports.Port)
    : list ports.Port :=
  flat_map (λ port, map (λ _, port) (customIPs clusterRouter allSubnets port))
    allPorts.

(** ** Ports: the worker of [deletePorts] *)

(** [cloudProviderSGNamePattern], the regular expression
    [^lb-sg-[0-9a-fA-F]{8}-[0-9a-fA-F]{4}-[0-9a-fA-F]{4}-[0-9a-fA-F]{4}-[0-9a-fA-F]{12}]:
    anchored at the start of the name and open at its end. *)
Definition isHexDigit (c : Ascii.ascii) : bool :=
  let n := Ascii.nat_of_ascii c in
  ((48 <=? n) && (n <=? 57) || (97 <=? n) && (n <=? 102)
   || (65 <=? n) && (n <=? 70))%nat.

(** [matchHex n s] consumes exactly [n] hexadecimal digits. *)
Fixpoint matchHex (n : nat) (s : string) : option string :=
  match n with
  | 0 => Some s
  | S n' =>
      match s with
      | String c rest => if isHexDigit c then matchHex n' rest else None
      | EmptyString => None
      end
  end.

(** [matchLit lit s] consumes the literal [lit]. *)
Fixpoint matchLit (lit s : string) : option string :=
  match lit with
  | EmptyString => Some s
  | String a lit' =>
      match s with
      | String b rest => if Ascii.eqb a b then matchLit lit' rest else None
      | EmptyString => None
      end
  end.

(** The pieces of the pattern: a literal, or a run of exactly [n]
    hexadecimal digits. *)
Inductive PatternItem := Lit (s : string) | Hex (n : nat).

Fixpoint matchItems (items : list PatternItem) (s : string) : bool :=
  match items with
  | [] => true
  | Lit l :: rest =>
      match matchLit l s with
      | Some s' => matchItems rest s'
      | None => false
      end
  | Hex n :: rest =>
      match matchHex n s with
      | Some s' => matchItems rest s'
      | None => false
      end
  end.

Definition cloudProviderSGNamePattern : list PatternItem :=
  [Lit "lb-sg-"; Hex 8; Lit "-"; Hex 4; Lit "-"; Hex 4; Lit "-"; Hex 4;
   Lit "-"; Hex 12].

(** [cloudProviderSGNameRegexp.MatchString]. *)
Definition cloudProviderSGNameMatch (name : string) : bool :=
  matchItems cloudProviderSGNamePattern name.

Section Ports.

Variable cloud : Cloud.

(** [getFIPsByPort]: on a failed list call the empty map is returned, with a
    nil error. *)
Definition getFIPsByPort : M (gmap string floatingips.FloatingIP) :=
  let! r := call cloud (FloatingIPsList (floatingips.mkOpts "")) in
  match r with
  | FloatingIPs allFIPs =>
      ret (foldl (λ fipByPort fip, <[floatingips.PortID fip := fip]> fipByPort)
             ∅ allFIPs)
  | _ => ret ∅
  end.

Definition getSGsByID : M (gmap string sg.SecGroup) :=
  let! r := call cloud SecGroupsList in
  match r with
  | SecGroups allSGs =>
      ret (foldl (λ sgByID group, <[sg.ID group := group]> sgByID) ∅ allSGs)
  | _ => ret ∅
  end.

Fixpoint deleteTrunks_loop (allTrunks : list trunks.Trunk) : M unit :=
  match allTrunks with
  | [] => ret tt
  | trunk :: rest =>
      let! _ := call cloud (TrunksDelete (trunks.ID trunk)) in
      deleteTrunks_loop rest
  end.

Definition deleteAssociatedTrunk (portID : string) : M unit :=
  let! r := call cloud (TrunksList portID) in
  match r with
  | Trunks allTrunks => deleteTrunks_loop allTrunks
  | _ => ret tt
  end.

(** The loop over [assignedSGs]; the state is the shared map [sgByID]. *)
Fixpoint assignedSGsLoop (assignedSGs : list string)
    (sgByID : gmap string sg.SecGroup) : M (gmap string sg.SecGroup) :=
  match assignedSGs with
  | [] => ret sgByID
  | groupID :: rest =>
      match sgByID !! groupID with
      | Some group =>
          if cloudProviderSGNameMatch (sg.Name group) then
            let! r := call cloud (SecGroupsDelete groupID) in
            match errOf r with
            | None => assignedSGsLoop rest (delete groupID sgByID)
            | Some err =>
                if ResponseCodeIs err StatusNotFound
                then assignedSGsLoop rest (delete groupID sgByID)
                else (* conflict is ignored, anything else is logged *)
                  assignedSGsLoop rest sgByID
            end
          else assignedSGsLoop rest sgByID
      | None => assignedSGsLoop rest sgByID
      end
  end.

(** The body of [for port := range portsChannel]; it returns the updated map
    and whether the port counts in [localDeleted]. *)
Definition deletePort (fipByPort : gmap string floatingips.FloatingIP)
    (port : ports.Port) (sgByID : gmap string sg.SecGroup)
    : M (gmap string sg.SecGroup * bool) :=
  let! dissociated :=
    match fipByPort !! ports.ID port with
    | Some fip =>
        let! r := call cloud (FloatingIPsUpdate (floatingips.ID fip)) in
        match errOf r with
        | Some err => ret (ResponseCodeIs err StatusNotFound)
        | None => ret true
        end
    | None => ret true
    end in
  if negb dissociated then (* continue *) ret (sgByID, false)
  else
    let assignedSGs := ports.SecurityGroups port in
    let! _ := call cloud (PortsUpdate (ports.ID port) []) in
    let! sgByID' := assignedSGsLoop assignedSGs sgByID in
    let! r := call cloud (PortsDelete (ports.ID port)) in
    match errOf r with
    | Some _ =>
        let! _ := deleteAssociatedTrunk (ports.ID port) in
        ret (sgByID', false)
    | None => ret (sgByID', true)
    end.

(** [deletePortsWorker] on the ports it receives from the channel.  The ten
    workers of the pool share [fipByPort] and [sgByID]; the model hands the
    ports to one worker after the other. *)
Fixpoint deletePortsWorker (fipByPort : gmap string floatingips.FloatingIP)
    (portsChannel : list ports.Port) (sgByID : gmap string sg.SecGroup)
    (localDeleted : nat) : M (gmap string sg.SecGroup * nat) :=
  match portsChannel with
  | [] => ret (sgByID, localDeleted)
  | port :: rest =>
      let! r := deletePort fipByPort port sgByID in
      deletePortsWorker fipByPort rest (fst r)
        (if snd r then S localDeleted else localDeleted)
  end.

Definition deletePorts (listOpts : ports.ListOpts) : M Result :=
  let! conn := call cloud (NewServiceClient "network") in
  match errOf conn with
  | Some _ => ret (false, None)
  | None =>
      let! r := call cloud (PortsList listOpts) in
      match r with
      | Ports allPorts =>
          let numberToDelete := length allPorts in
          let! fipByPort := getFIPsByPort in
          let! sgByID := getSGsByID in
          let! w := deletePortsWorker fipByPort allPorts sgByID 0 in
          ret ((snd w =? numberToDelete)%nat, None)
      | _ => ret (false, None)
      end
  end.

Definition deletePortsByNetwork (networkID : string) : M Result :=
  let listOpts := ports.mkOpts networkID "" "" in
  let! r := deletePorts listOpts in
  match snd r with
  | Some _ => ret (false, None)
  | None => ret r
  end.

End Ports.

(** ** Call-trace assertions *)

(** [emits P Q m]: whatever the calls made before, [m] only adds calls that
    satisfy [P], and its result satisfies [Q]. *)
Definition emits {A} (P : Call → Prop) (Q : A → Prop) (m : M A) : Prop :=
  ∀ t, ∃ calls, snd (m t) = t ++ calls ∧ Forall P calls ∧ Q (fst (m t)).

(** What the ports worker may do to security groups, given the prefetched
    map [sgByID]: delete a group only when its name matches the pattern, and
    update a port only to clear its list of groups. *)
Definition sgCallAllowed (sgByID : gmap string sg.SecGroup) (c : Call)
    : Prop :=
  match c with
  | SecGroupsDelete groupID =>
      ∃ group, sgByID !! groupID = Some group
               ∧ cloudProviderSGNameMatch (sg.Name group) = true
  | PortsUpdate _ securityGroups => securityGroups = []
  | _ => True
  end.

(** A port with a managed load-balancer group and the default group. *)
Definition lbGroup : sg.SecGroup :=
  sg.mk "sg-lb" "lb-sg-0123abcd-0123-4567-89ab-0123456789ab-default-web".
Definition defaultGroup : sg.SecGroup := sg.mk "sg-default" "default".

Definition portsCloud : Cloud :=
  λ _ c,
    match c with
    | PortsList _ => Ports [ports.mk "p1" "" ["sg-lb"; "sg-default"] []]
    | SecGroupsList => SecGroups [lbGroup; defaultGroup]
    | FloatingIPsList _ => FloatingIPs []
    | _ => Done
    end.

(** ** Networks and their leftover load balancers *)

Section Networks.

Variable cloud : Cloud.

Fixpoint deletePortFIPs_loop (fips : list floatingips.FloatingIP)
    : M (option error) :=
  match fips with
  | [] => ret None
  | fip :: rest =>
      let! r := call cloud (FloatingIPsDelete (floatingips.ID fip)) in
      match errOf r with
      | Some err =>
          if negb (ResponseCodeIs err StatusNotFound) then ret (Some err)
          else deletePortFIPs_loop rest
      | None => deletePortFIPs_loop rest
      end
  end.

(** [deletePortFIPs] looks up the floating IPs of a port and deletes them. *)
Definition deletePortFIPs (portID : string) : M (option error) :=
  let! conn := call cloud (NewServiceClient "network") in
  match errOf conn with
  | Some err => ret (Some err)
  | None =>
      let! r := call cloud (FloatingIPsList (floatingips.mkOpts portID)) in
      match r with
      | FloatingIPs fips => deletePortFIPs_loop fips
      | Failed err => ret (Some err)
      | _ => ret (Some (ErrMessage "unexpected response body"))
      end
  end.

(** The loop of [deleteLeftoverLoadBalancers], started with the current
    value of [deleted]. *)
Fixpoint leftoverLoop (allLoadBalancers : list loadbalancers.LoadBalancer)
    (deleted : nat) : M nat :=
  match allLoadBalancers with
  | [] => ret deleted
  | loadbalancer :: rest =>
      if negb (HasPrefix (loadbalancers.Description loadbalancer)
                 "Kubernetes external service")
      then (* continue *) leftoverLoop rest deleted
      else
        let! err := deletePortFIPs (loadbalancers.VipPortID loadbalancer) in
        match err with
        | Some _ => (* continue *) leftoverLoop rest deleted
        | None =>
            let! r := call cloud (LoadBalancersDelete
                                    (loadbalancers.ID loadbalancer) true) in
            match errOf r with
            | Some err =>
                if negb (ResponseCodeIs err StatusNotFound)
                then (* continue *) leftoverLoop rest deleted
                else leftoverLoop rest (S deleted)
            | None => leftoverLoop rest (S deleted)
            end
        end
  end.

Definition deleteLeftoverLoadBalancers (networkID : string)
    : M (option error) :=
  let! conn := call cloud (NewServiceClient "load-balancer") in
  match errOf conn with
  | Some err => if IsEndpointNotFound err then ret None else ret (Some err)
  | None =>
      let! r := call cloud (LoadBalancersList networkID) in
      match r with
      | LoadBalancers allLoadBalancers =>
          let! deleted := leftoverLoop allLoadBalancers 0 in
          if negb (deleted =? length allLoadBalancers)%nat
          then ret (Some (ErrMessage
                 ("only deleted " +:+ pretty deleted +:+ " of " +:+
                  pretty (length allLoadBalancers) +:+ " load balancers")))
          else ret None
      | Failed err => ret (Some err)
      | _ => ret (Some (ErrMessage "unexpected response body"))
      end
  end.

Fixpoint deleteNetworks_loop (allNetworks : list networks.Network)
    (numberDeleted : nat) : M nat :=
  match allNetworks with
  | [] => ret numberDeleted
  | network :: rest =>
      let! r := call cloud (NetworksDelete (networks.ID network)) in
      match errOf r with
      | Some err =>
          if negb (ResponseCodeIs err StatusNotFound) then
            let! lbErr := deleteLeftoverLoadBalancers (networks.ID network) in
            match lbErr with
            | Some _ => (* continue *) deleteNetworks_loop rest numberDeleted
            | None =>
                let! _ := deletePortsByNetwork cloud (networks.ID network) in
                (* continue *) deleteNetworks_loop rest numberDeleted
            end
          else deleteNetworks_loop rest (S numberDeleted)
      | None => deleteNetworks_loop rest (S numberDeleted)
      end
  end.

Definition deleteNetworks (filter : gmap string string) : M Result :=
  let! conn := call cloud (NewServiceClient "network") in
  match errOf conn with
  | Some _ => ret (false, None)
  | None =>
      let tags := filterTags filter in
      let listOpts := networks.mkOpts "" (Join tags ",") in
      let! r := call cloud (NetworksList listOpts) in
      match r with
      | Networks allNetworks =>
          let numberToDelete := length allNetworks in
          let! numberDeleted := deleteNetworks_loop allNetworks 0 in
          ret ((numberDeleted =? numberToDelete)%nat, None)
      | _ => ret (false, None)
      end
  end.



End Networks.



(** Scenario: the network [n1] cannot be deleted (409) while two load
    balancers created for Kubernetes services, each with a floating IP,
    are bound to it; [foreign] adds a load balancer of the user. *)
Definition lbA : loadbalancers.LoadBalancer :=
  loadbalancers.mk "lbA" "Kubernetes external service a/web from cluster abc" "vipA".
Definition lbB : loadbalancers.LoadBalancer :=
  loadbalancers.mk "lbB" "Kubernetes external service b/api from cluster abc" "vipB".
Definition lbUser : loadbalancers.LoadBalancer :=
  loadbalancers.mk "lbU" "load balancer of the user" "vipU".

Definition leftoverCloud (lbs : list loadbalancers.LoadBalancer) : Cloud :=
  λ _ c,
    match c with
    | NetworksList _ => Networks [net1]
    | NetworksDelete _ => Failed (ErrUnexpectedResponseCode 409)
    | LoadBalancersList _ => LoadBalancers lbs
    | FloatingIPsList opts =>
        FloatingIPs
          [floatingips.mk ("fip-" +:+ floatingips.optPortID opts)
             (floatingips.optPortID opts)]
    | PortsList _ => Ports [ports.mk "dangling" "" [] []]
    | SecGroupsList => SecGroups []
    | _ => Done
    end.

(** ** The orchestrator: [Run] and [deleteRunner]

    [Run] starts one goroutine per entry of [deleteFuncs], receives
    [len(deleteFuncs)] names from the unbuffered [returnChannel], and then
    calls [deleteRouterRunner] and [untagRunner] one after the other.  The
    goroutines are modelled by an interleaving semantics: a schedule is a
    list of actions, each of which is one step of the main goroutine or of a
    [deleteRunner]; what a runner's back-off loop does to the cloud is
    abstracted to its outcome. *)

(** The keys of the [deleteFuncs] map. *)
Definition deleteFuncNames : list string :=
  ["cleanVIPsPorts"; "deleteServers"; "deleteServerGroups"; "deleteTrunks";
   "deleteLoadBalancers"; "deletePorts"; "deleteSecurityGroups";
   "clearRouterInterfaces"; "deleteSubnets"; "deleteNetworks";
   "deleteContainers"; "deleteVolumes"; "deleteShares";
   "deleteVolumeSnapshots"; "deleteFloatingIPs"; "deleteImages"].

Definition deleteFuncs : gset string := list_to_set deleteFuncNames.

(** Where the main goroutine stands in [Run]. *)
Inductive MainState :=
| Validating                       (* in validateCloud *)
| Launching                        (* in the loop of go statements *)
| Waiting (i : nat)                (* in the receive loop, before receive i *)
| InRouters                        (* in deleteRouterRunner *)
| AfterRouters                     (* deleteRouterRunner returned nil *)
| InUntag                          (* in untagRunner *)
| Returned (err : option error)    (* Run has returned *)
| Exited.                          (* logger.Fatalf ended the process *)

(** What an observer of the run records, in order. *)
Inductive Event :=
| Launched (name : string)
| Signal (name : string)           (* the name was received on the channel *)
| Fatal (name : string)
| RouterStart
| RouterDone (err : option error)
| UntagStart
| UntagDone (err : option error).

(** [running]: goroutines inside their back-off loop; [sending]: goroutines
    blocked on [channel <- deleteFuncName]; [finished]: goroutines whose
    name has been received. *)
Record RunState := mkRunState {
  main : MainState;
  running : gset string;
  sending : gset string;
  finished : gset string;
  log : list Event
}.

Inductive Action :=
| AValidate (err : option error)   (* validateCloud returns *)
| ALaunch (name : string)          (* go deleteRunner(name, ...) *)
| AWait                            (* the loop of go statements is over *)
| ABackoff (name : string) (err : option error)
                                   (* the back-off loop of a runner returns *)
| AReceive (name : string)         (* res := <-returnChannel *)
| AStartRouters                    (* the receive loop is over *)
| ARouters (err : option error)    (* deleteRouterRunner returns *)
| AStartUntag
| AUntag (err : option error).     (* untagRunner returns *)

Definition launched (s : RunState) : gset string :=
  running s ∪ sending s ∪ finished s.

Definition setMain (m : MainState) (events : list Event) (s : RunState)
    : RunState :=
  mkRunState m (running s) (sending s) (finished s) (log s ++ events).

(** One step of the system; [None] when the action is not enabled. *)
Definition exec (funcs : gset string) (s : RunState) (a : Action)
    : option RunState :=
  match a, main s with
  | AValidate None, Validating => Some (setMain Launching [] s)
  | AValidate (Some err), Validating =>
      Some (setMain (Returned (Some err)) [] s)
  | ALaunch name, Launching =>
      if decide (name ∈ funcs ∧ name ∉ launched s)
      then Some (mkRunState Launching ({[name]} ∪ running s) (sending s)
                   (finished s) (log s ++ [Launched name]))
      else None
  | AWait, Launching =>
      if decide (funcs ⊆ launched s) then Some (setMain (Waiting 0) [] s)
      else None
  | ABackoff _ _, Exited => None
  | ABackoff name None, m =>
      if decide (name ∈ running s)
      then Some (mkRunState m (running s ∖ {[name]}) ({[name]} ∪ sending s)
                   (finished s) (log s))
      else None
  | ABackoff name (Some _), _ =>
      if decide (name ∈ running s)
      then Some (setMain Exited [Fatal name] s)
      else None
  | AReceive name, Waiting i =>
      if decide (i < size funcs ∧ name ∈ sending s)
      then Some (mkRunState (Waiting (S i)) (running s)
                   (sending s ∖ {[name]}) ({[name]} ∪ finished s)
                   (log s ++ [Signal name]))
      else None
  | AStartRouters, Waiting i =>
      if decide (i < size funcs) then None
      else Some (setMain InRouters [RouterStart] s)
  | ARouters None, InRouters => Some (setMain AfterRouters [RouterDone None] s)
  | ARouters (Some err), InRouters =>
      Some (setMain (Returned (Some err)) [RouterDone (Some err)] s)
  | AStartUntag, AfterRouters => Some (setMain InUntag [UntagStart] s)
  | AUntag err, InUntag => Some (setMain (Returned err) [UntagDone err] s)
  | _, _ => None
  end.

Fixpoint execAll (funcs : gset string) (s : RunState) (schedule : list Action)
    : option RunState :=
  match schedule with
  | [] => Some s
  | a :: rest =>
      match exec funcs s a with
      | Some s' => execAll funcs s' rest
      | None => None
      end
  end.

Definition initial : RunState := mkRunState Validating ∅ ∅ ∅ [].

(** What holds of the log at each point of [Run]. *)
Definition phaseFacts (m : MainState) (l : list Event) : Prop :=
  match m with
  | Validating | Launching | Waiting _ =>
      (RouterStart ∉ l) ∧ (UntagStart ∉ l) ∧ (∀ err, RouterDone err ∉ l)
  | InRouters => (UntagStart ∉ l) ∧ (∀ err, RouterDone err ∉ l)
  | AfterRouters =>
      (UntagStart ∉ l) ∧ (RouterDone None ∈ l)
      ∧ (∀ err, RouterDone (Some err) ∉ l)
  | InUntag => ∀ err, RouterDone (Some err) ∉ l
  | Returned _ | Exited => True
  end.

(** The ordering properties of the log. *)
Definition signalsBeforeRouters (funcs : gset string) (l : list Event)
    : Prop :=
  ∀ l1 l2, l = l1 ++ RouterStart :: l2 →
    ∀ name, name ∈ funcs → Signal name ∈ l1.

Definition routersBeforeUntag (l : list Event) : Prop :=
  (∀ l1 l2, l = l1 ++ UntagStart :: l2 → RouterDone None ∈ l1)
  ∧ (∀ err, RouterDone (Some err) ∈ l → UntagStart ∉ l).

(** The number of names received so far, as the main goroutine knows it;
    from [deleteRouterRunner] on, every name has been received. *)
Definition receivedSoFar (funcs : gset string) (m : MainState)
    (finished : gset string) : Prop :=
  match m with
  | Validating | Launching => finished = ∅
  | Waiting i => i = size finished
  | InRouters | AfterRouters | InUntag => finished = funcs
  | Returned _ | Exited => True
  end.

Definition runInv (funcs : gset string) (s : RunState) : Prop :=
  launched s ⊆ funcs
  ∧ running s ## sending s ∧ (running s ∪ sending s) ## finished s
  ∧ (∀ name, name ∈ finished s → Signal name ∈ log s)
  ∧ receivedSoFar funcs (main s) (finished s)
  ∧ phaseFacts (main s) (log s)
  ∧ signalsBeforeRouters funcs (log s)
  ∧ routersBeforeUntag (log s).

(** The schedule of a run in which every runner succeeds: all goroutines
    are launched, all finish their back-off loop, and their names are
    received in the reverse order. *)
Definition fullSchedule (names : list string) : list Action :=
  [AValidate None] ++ map ALaunch names ++ [AWait]
  ++ map (λ name, ABackoff name None) names
  ++ map AReceive (reverse names)
  ++ [AStartRouters; ARouters None; AStartUntag; AUntag None].

(** ** Security groups of user-provided ports ([cleanVIPsPorts]) *)

Fixpoint isClusterSG (providedPortSG : string) (clusterSGs : list sg.SecGroup)
    : bool :=
  match clusterSGs with
  | [] => false
  | clusterSG :: rest =>
      if decide (providedPortSG = sg.ID clusterSG) then true
      else isClusterSG providedPortSG rest
  end.

(** [cleanClusterSgs] removes the installer security groups from the list of
    groups of a user-provided port. *)
Fixpoint cleanClusterSgs (providedPortSGs : list string)
    (clusterSGs : list sg.SecGroup) : list string :=
  match providedPortSGs with
  | [] => []
  | providedPortSG :: rest =>
      if negb (isClusterSG providedPortSG clusterSGs)
      then providedPortSG :: cleanClusterSgs rest clusterSGs
      else cleanClusterSgs rest clusterSGs
  end.

(** The number of characters a name must have to match a list of pattern
    items. *)
Fixpoint patternLength (items : list PatternItem) : nat :=
  match items with
  | [] => 0
  | Lit l :: rest => String.length l + patternLength rest
  | Hex n :: rest => n + patternLength rest
  end.

(** ** Load balancers, and ports selected by tag *)

(** [strings.Contains(s, substr)]: [substr] starts at some position of [s]. *)
Fixpoint Contains (s substr : string) : bool :=
  String.prefix substr s ||
  match s with
  | EmptyString => false
  | String _ rest => Contains rest substr
  end.

Section LoadBalancers.

Variable cloud : Cloud.

Definition allLoadBalancersToRemove
    (allLoadBalancers : list loadbalancers.LoadBalancer) (clusterID : string)
    : list loadbalancers.LoadBalancer :=
  List.filter (λ lb, Contains (loadbalancers.Description lb) clusterID)
    allLoadBalancers.

Fixpoint deleteLoadBalancers_loop
    (toRemove : list loadbalancers.LoadBalancer) (numberDeleted : nat)
    : M nat :=
  match toRemove with
  | [] => ret numberDeleted
  | loadbalancer :: rest =>
      let! r := call cloud (LoadBalancersDelete
                              (loadbalancers.ID loadbalancer) true) in
      match errOf r with
      | Some err =>
          if negb (ResponseCodeIs err StatusNotFound)
          then (* continue *) deleteLoadBalancers_loop rest numberDeleted
          else deleteLoadBalancers_loop rest (S numberDeleted)
      | None => deleteLoadBalancers_loop rest (S numberDeleted)
      end
  end.

(** [loadbalancers.ListOpts{}] has the zero value in every field, so the
    list call is the one with an empty [VipNetworkID]. *)
Definition deleteLoadBalancers (filter : gmap string string) : M Result :=
  let! conn := call cloud (NewServiceClient "load-balancer") in
  match errOf conn with
  | Some err =>
      if IsEndpointNotFound err then ret (true, None) else ret (false, None)
  | None =>
      let clusterID := index filter "openshiftClusterID" in
      let! r := call cloud (LoadBalancersList "") in
      match r with
      | LoadBalancers allLoadBalancers =>
          let toRemove := allLoadBalancersToRemove allLoadBalancers clusterID in
          let numberToDelete := length toRemove in
          let! numberDeleted := deleteLoadBalancers_loop toRemove 0 in
          ret ((numberDeleted =? numberToDelete)%nat, None)
      | _ => ret (false, None)
      end
  end.

Definition deletePortsByFilter (filter : gmap string string) : M Result :=
  let tags := filterTags filter in
  let listOpts := ports.mkOpts "" "" (Join tags ",") in
  let! r := deletePorts cloud listOpts in
  match snd r with
  | Some _ => ret (false, None)
  | None => ret r
  end.

End LoadBalancers.

(** The identifiers of the servers the filter selects. *)
Definition filteredServerIDs (allServers : list servers.Server)
    (filter : gmap string string) : list string :=
  map ID
    (filterObjects
       (map (λ server, mkObjectWithTags (servers.ID server)
                         (servers.Metadata server)) allServers) filter).

(** A filter whose cluster-ID key is spelled in lower case. *)
Definition lowerKeyFilter : gmap string string :=
  {[ "openshiftclusterid" := "abc" ]}.

(** A volume of cluster [abc] created by the CSI driver with the cluster ID
    as name prefix. *)
Definition csiVolume : volumes.Volume :=
  volumes.mk "v1" "abc-pvc-1" {[ cinderCSIClusterIDKey := "abc" ]}.

(** A project with one CSI volume, and a project with two load balancers of
    which only the first names the cluster in its description. *)
Definition volumesCloud : Cloud :=
  λ _ c,
    match c with
    | VolumesList => Volumes [csiVolume]
    | _ => Done
    end.

Definition lbsCloud : Cloud :=
  λ _ c,
    match c with
    | LoadBalancersList _ => LoadBalancers [lbA; lbUser]
    | _ => Done
    end.

(** Two floating IPs bound to the same port. *)
Definition twoFIPsCloud : Cloud :=
  λ _ c,
    match c with
    | FloatingIPsList _ =>
        FloatingIPs [floatingips.mk "fip1" "p1"; floatingips.mk "fip2" "p1"]
    | PortsList _ => Ports [ports.mk "p1" "" [] []]
    | PortsDelete _ => Failed (ErrUnexpectedResponseCode 409)
    | FloatingIPsUpdate _ => Failed (ErrUnexpectedResponseCode 500)
    | TrunksList _ => Trunks [trunks.mk "trunk1"]
    | SecGroupsList => SecGroups []
    | _ => Done
    end.

(** An object store whose bulk-delete limit is one object per call. *)
Definition oneByOneCloud : Cloud :=
  λ _ c,
    match c with
    | ObjectsBulkDelete _ _ => BulkDeleted (objects.mk 1 0 [])
    | _ => Done
    end.

(** ** The outcome of [Run] *)

(** No runner has ended the process. *)
Definition noFatal (l : list Event) : Prop := ∀ name, Fatal name ∉ l.

(** The three [return] statements of [Run]: after [validateCloud], after
    [deleteRouterRunner] and after [untagRunner]. *)
Definition returnFacts (funcs : gset string) (r : option error)
    (s : RunState) : Prop :=
  (launched s = ∅ ∧ log s = [] ∧ r ≠ None)
  ∨ (∃ l err, log s = l ++ [RouterDone (Some err)] ∧ r = Some err
       ∧ (UntagStart ∉ l) ∧ finished s = funcs)
  ∨ (∃ l, log s = l ++ [UntagDone r] ∧ RouterDone None ∈ l
       ∧ finished s = funcs).

(** What holds of the goroutines and of the log at each point of [Run]. *)
Definition outcomeFacts (funcs : gset string) (s : RunState) : Prop :=
  match main s with
  | Validating => launched s = ∅ ∧ log s = []
  | Launching => noFatal (log s)
  | Waiting _ => funcs ⊆ launched s ∧ noFatal (log s)
  | InRouters | AfterRouters => noFatal (log s)
  | InUntag => noFatal (log s) ∧ RouterDone None ∈ log s
  | Returned r =>
      running s = ∅ ∧ sending s = ∅ ∧ noFatal (log s) ∧ returnFacts funcs r s
  | Exited =>
      ∃ l name, log s = l ++ [Fatal name] ∧ noFatal l ∧ name ∈ funcs
        ∧ RouterStart ∉ l
  end.

(** A run in which [validateCloud] fails. *)
Definition invalidCloudSchedule (err : error) : list Action :=
  [AValidate (Some err)].


(** A router of the cluster whose subnets are still in use: every detach is
    refused. *)
Definition clusterRouter1 : routers.Router :=
  routers.mk "r1" ["openshiftClusterID=abc"].

Definition busyRouterCloud : Cloud :=
  λ _ c,
    match c with
    | PortsList _ =>
        Ports [ports.mk "p1" "r1" [] [ports.mkIP "sub1" "10.0.0.1"];
               ports.mk "p2" "r1" [] [ports.mkIP "sub2" "10.0.1.1"]]
    | SubnetsList _ => Subnets [subnets.mk "sub1"; subnets.mk "sub2"]
    | RoutersRemoveInterface _ _ => Failed (ErrUnexpectedResponseCode 409)
    | _ => Done
    end.

(** ** Floating IPs of a router ([updateFips]) *)

Section UpdateFips.

Variable cloud : Cloud.

(** The loop of [updateFips]: each floating IP is updated with empty
    options, which dissociates it from its port. *)
Fixpoint updateFips_loop (allFIPs : list floatingips.FloatingIP)
    : M (option error) :=
  match allFIPs with
  | [] => ret None
  | fip :: rest =>
      let! r := call cloud (FloatingIPsUpdate (floatingips.ID fip)) in
      match errOf r with
      | Some err =>
          if negb (ResponseCodeIs err StatusNotFound) then ret (Some err)
          else updateFips_loop rest
      | None => updateFips_loop rest
      end
  end.

Definition updateFips (allFIPs : list floatingips.FloatingIP)
    : M (option error) :=
  let! conn := call cloud (NewServiceClient "network") in
  match errOf conn with
  | Some err => ret (Some err)
  | None => updateFips_loop allFIPs
  end.

End UpdateFips.

(** The run of a loop over floating IPs that skips not-found answers and
    returns the first other error: [out] is its result and trace when it is
    started after the trace [t] and sends [mk fip] for each floating IP. *)
Definition firstErrorRun (cloud : Cloud) (mk : floatingips.FloatingIP → Call)
    (fips : list floatingips.FloatingIP) (t : Trace)
    (out : option error * Trace) : Prop :=
  match fst out with
  | None =>
      snd out = (t ++ map mk fips)%list
      ∧ answeredOrGone cloud t (map mk fips) = true
  | Some err =>
      ∃ done fip rest,
        fips = (done ++ fip :: rest)%list
        ∧ snd out = (t ++ map mk (done ++ [fip]))%list
        ∧ answeredOrGone cloud t (map mk done) = true
        ∧ errOf (cloud (t ++ map mk done)%list (mk fip)) = Some err
        ∧ ResponseCodeIs err StatusNotFound = false
  end.

(** A cloud in which the floating IP [fip1] is gone and [fip2] cannot be
    changed. *)
Definition threeFIPs : list floatingips.FloatingIP :=
  [floatingips.mk "fip1" "p1"; floatingips.mk "fip2" "p1";
   floatingips.mk "fip3" "p1"].

Definition stuckFIPCloud : Cloud :=
  λ _ c,
    match c with
    | FloatingIPsList _ =>
        FloatingIPs threeFIPs
    | FloatingIPsUpdate id | FloatingIPsDelete id =>
        if decide (id = "fip1") then Failed (ErrUnexpectedResponseCode 404)
        else if decide (id = "fip2") then Failed (ErrUnexpectedResponseCode 409)
        else Done
    | _ => Done
    end.

(** * Proofs *)

Section FilterObjects.

Implicit Types (tags filters : gmap string string).
Implicit Types (entries : list (string * string)).

Lemma allTagsFound_spec entries tags :
  allTagsFound entries tags = true ↔
  ∀ key val, (key, val) ∈ entries → is_Some (tags !! key).
Proof.
  induction entries as [|[k v] rest IH]; simpl.
  - split; [intros _ ? ? H; inversion H | done].
  - destruct (tags !! k) as [w|] eqn:Hk.
    + rewrite IH. split.
      * intros H key val Hin. apply elem_of_cons in Hin as [Heq|Hin].
        -- injection Heq as -> ->. by rewrite Hk.
        -- by apply (H key val).
      * intros H key val Hin. apply (H key val). by right.
    + split; [done|]. intros H.
      destruct (H k v) as [w Hw]; [by left|]. congruence.
Qed.

Lemma valuesMatch_spec entries tags :
  valuesMatch entries tags = true ↔
  ∀ key val, (key, val) ∈ entries → index tags key = val.
Proof.
  induction entries as [|[k v] rest IH]; simpl.
  - split; [intros _ ? ? H; inversion H | done].
  - destruct (decide (index tags k = v)) as [Heq|Hne].
    + rewrite IH. split.
      * intros H key val Hin. apply elem_of_cons in Hin as [E|Hin].
        -- by injection E as -> ->.
        -- by apply H.
      * intros H key val Hin. apply H. by right.
    + split; [done|]. intros H. destruct Hne. apply H. by left.
Qed.

(** The two loops give the same verdict for every visiting order. *)
Lemma range_order_irrelevant_keys entries entries' tags :
  entries ≡ₚ entries' →
  allTagsFound entries tags = allTagsFound entries' tags.
Proof.
  intros HP. apply eq_true_iff_eq. rewrite !allTagsFound_spec.
  split; intros H key val Hin; apply (H key val).
  - by rewrite HP.
  - by rewrite <- HP.
Qed.

Lemma range_order_irrelevant_values entries entries' tags :
  entries ≡ₚ entries' →
  valuesMatch entries tags = valuesMatch entries' tags.
Proof.
  intros HP. apply eq_true_iff_eq. rewrite !valuesMatch_spec.
  split; intros H key val Hin; apply (H key val).
  - by rewrite HP.
  - by rewrite <- HP.
Qed.

Lemma both_loops_spec filters tags :
  allTagsFound (rangeMap filters) tags = true ∧
  valuesMatch (rangeMap filters) tags = true ↔
  tagsMatch filters tags.
Proof.
  rewrite allTagsFound_spec, valuesMatch_spec. unfold rangeMap, tagsMatch.
  split.
  - intros [Hk Hv] key val Hf.
    apply elem_of_map_to_list in Hf.
    destruct (Hk key val Hf) as [w Hw].
    specialize (Hv key val Hf). unfold index in Hv. rewrite Hw in Hv.
    simpl in Hv. by subst.
  - intros H. split; intros key val Hin; apply elem_of_map_to_list in Hin;
      apply H in Hin.
    + by eexists.
    + unfold index. by rewrite Hin.
Qed.

Lemma elem_of_filterObjects osObjects filters object :
  object ∈ filterObjects osObjects filters ↔
  object ∈ osObjects ∧ tagsMatch filters (Tags object).
Proof.
  unfold filterObjects.
  rewrite !list_elem_of_In, !filter_In, <- both_loops_spec. tauto.
Qed.

End FilterObjects.

(** C1: [filterObjects] returns exactly the input objects whose tags carry
    every key of the filter with an equal value, in input order.  An object
    that lacks a filter key is dropped, an object with a different value for
    a filter key is dropped, and an object whose tags strictly extend the
    filter is kept. *)
Theorem filterObjects_exact_subset :
  ∀ (osObjects : list ObjectWithTags) (filters : gmap string string),
    filterObjects osObjects filters =
      List.filter (λ object, bool_decide (filters ⊆ Tags object)) osObjects
    ∧ (∀ object, object ∈ filterObjects osObjects filters ↔
         object ∈ osObjects ∧ tagsMatch filters (Tags object))
    ∧ (∀ object key, is_Some (filters !! key) → Tags object !! key = None →
         object ∉ filterObjects osObjects filters)
    ∧ (∀ object key val, filters !! key = Some val →
         Tags object !! key ≠ Some val →
         object ∉ filterObjects osObjects filters)
    ∧ (∀ object, object ∈ osObjects → filters ⊂ Tags object →
         object ∈ filterObjects osObjects filters).
Proof.
  intros osObjects filters. split; [|split; [|split; [|split]]].
  - unfold filterObjects. induction osObjects as [|o rest IH]; [done|].
    simpl.
    assert (Hiff : allTagsFound (rangeMap filters) (Tags o) = true ∧
                   valuesMatch (rangeMap filters) (Tags o) = true ↔
                   filters ⊆ Tags o).
    { rewrite both_loops_spec. unfold tagsMatch.
      rewrite map_subseteq_spec. done. }
    destruct (allTagsFound (rangeMap filters) (Tags o)) eqn:E1; simpl.
    + destruct (valuesMatch (rangeMap filters) (Tags o)) eqn:E2.
      * rewrite bool_decide_eq_true_2 by (apply Hiff; done).
        by rewrite IH.
      * rewrite bool_decide_eq_false_2; [done|].
        intros H. apply Hiff in H as [_ H]. done.
    + rewrite bool_decide_eq_false_2; [done|].
      intros H. apply Hiff in H as [H _]. done.
  - intros object. apply elem_of_filterObjects.
  - intros object key [val Hf] Hnone Hin.
    apply elem_of_filterObjects in Hin as [_ Hm].
    apply Hm in Hf. congruence.
  - intros object key val Hf Hne Hin.
    apply elem_of_filterObjects in Hin as [_ Hm].
    apply Hm in Hf. done.
  - intros object Hin [Hsub _]. apply elem_of_filterObjects. split; [done|].
    intros key val Hf. by eapply lookup_weaken.
Qed.

(** The three handles of the specification's tag-match example, against the
    filter [{a:1, b:2}]. *)
Example filterObjects_spec_example :
  filterObjects
    [ mkObjectWithTags "h1" {[ "a" := "1" ]};
      mkObjectWithTags "h2" (<[ "a" := "1" ]> {[ "b" := "9" ]});
      mkObjectWithTags "h3" (<[ "a" := "1" ]> (<[ "b" := "2" ]> {[ "c" := "3" ]})) ]
    (<[ "a" := "1" ]> {[ "b" := "2" ]})
  = [ mkObjectWithTags "h3" (<[ "a" := "1" ]> (<[ "b" := "2" ]> {[ "c" := "3" ]})) ].
Proof. vm_compute. reflexivity. Qed.

(** C10: with the empty filter [filterObjects] returns the whole input list,
    in input order. *)
Theorem filterObjects_empty_filter :
  ∀ osObjects : list ObjectWithTags, filterObjects osObjects ∅ = osObjects.
Proof.
  intros osObjects. unfold filterObjects, rangeMap.
  rewrite map_to_list_empty. simpl.
  induction osObjects as [|o rest IH]; [done|]. simpl. by rewrite IH.
Qed.

(** ** Not-found handling in the delete loops *)

Section DeleteLoops.

Variable cloud : Cloud.

(** Running a loop never rewrites the calls already made. *)
Lemma deleteServerGroups_loop_trace groups n t :
  snd (deleteServerGroups_loop cloud groups n t) =
  (t ++ map (λ g, ServerGroupsDelete (servergroups.ID g)) groups)%list.
Proof.
  revert n t. induction groups as [|g rest IH]; intros n t; simpl.
  - by rewrite app_nil_r.
  - unfold bind, call. simpl.
    destruct (errOf _) as [err|]; [destruct (ResponseCodeIs _ _)|];
      rewrite IH, <- app_assoc; done.
Qed.

Lemma deleteVolumes_loop_trace ids n t :
  snd (deleteVolumes_loop cloud ids n t) = (t ++ map VolumesDelete ids)%list.
Proof.
  revert n t. induction ids as [|i rest IH]; intros n t; simpl.
  - by rewrite app_nil_r.
  - unfold bind, call. simpl.
    destruct (errOf _) as [err|]; [destruct (negb _)|];
      rewrite IH, <- app_assoc; done.
Qed.

(** [deleteServers] counts a server whose delete call answers not-found. *)
Lemma deleteServers_loop_not_found_counted filteredServers n t :
  (∀ t' id, errOf (cloud t' (ServersDelete id)) = None ∨
            ∃ err, cloud t' (ServersDelete id) = Failed err ∧
                   ResponseCodeIs err StatusNotFound = true) →
  fst (deleteServers_loop cloud filteredServers n t) =
  n + length filteredServers.
Proof.
  intros Hcloud. revert n t.
  induction filteredServers as [|s rest IH]; intros n t; simpl.
  - lia.
  - unfold bind, call. simpl.
    destruct (Hcloud t (ID s)) as [Hok|(err & Herr & H404)].
    + rewrite Hok, IH. lia.
    + rewrite Herr. simpl. rewrite H404. simpl. rewrite IH. lia.
Qed.

(** [deleteServerGroups] does the opposite: a server group whose delete call
    answers not-found is never counted. *)
Lemma deleteServerGroups_loop_not_found_skipped groups n t :
  (∀ t' id, ∃ err, cloud t' (ServerGroupsDelete id) = Failed err ∧
                   ResponseCodeIs err StatusNotFound = true) →
  fst (deleteServerGroups_loop cloud groups n t) = n.
Proof.
  intros Hcloud. revert n t.
  induction groups as [|g rest IH]; intros n t; simpl; [done|].
  unfold bind, call. simpl.
  destruct (Hcloud t (servergroups.ID g)) as (err & Herr & H404).
  rewrite Herr. simpl. rewrite H404. apply IH.
Qed.

(** ... and a server group whose delete call fails with any other error is
    counted as deleted. *)
Lemma deleteServerGroups_loop_failure_counted groups n t :
  (∀ t' id, ∃ err, cloud t' (ServerGroupsDelete id) = Failed err ∧
                   ResponseCodeIs err StatusNotFound = false) →
  fst (deleteServerGroups_loop cloud groups n t) = n + length groups.
Proof.
  intros Hcloud. revert n t.
  induction groups as [|g rest IH]; intros n t; simpl; [lia|].
  unfold bind, call. simpl.
  destruct (Hcloud t (servergroups.ID g)) as (err & Herr & H404).
  rewrite Herr. simpl. rewrite H404, IH. lia.
Qed.

End DeleteLoops.

(** C3: the claim asks that a not-found answer to a delete call counts the
    resource as deleted and that any other failure skips it.
    [deleteServers] does so; [deleteServerGroups] tests the response code
    the other way round.  With one server group (and one server) of the
    cluster in the project: on a 404 answer [deleteServerGroups] returns
    [(false, nil)], on a 500 answer it returns [(true, nil)], while
    [deleteServers] returns [(true, nil)] and [(false, nil)]. *)
Theorem deleteServerGroups_not_found_inverted :
  fst (deleteServerGroups
         (oneGroupCloud (Failed (ErrUnexpectedResponseCode 404)))
         asciiToLower abcFilter []) = (false, None)
  ∧ fst (deleteServerGroups
           (oneGroupCloud (Failed (ErrUnexpectedResponseCode 500)))
           asciiToLower abcFilter []) = (true, None)
  ∧ fst (deleteServers
           (oneGroupCloud (Failed (ErrUnexpectedResponseCode 404)))
           abcFilter []) = (true, None)
  ∧ fst (deleteServers
           (oneGroupCloud (Failed (ErrUnexpectedResponseCode 500)))
           abcFilter []) = (false, None).
Proof. repeat split; vm_compute; reflexivity. Qed.

(** ** Tasks that match resources by name prefix *)

Section ClusterID.

Variable ToLower : string → string.

Lemma clusterIDLoop_no_key entries :
  (∀ k v, (k, v) ∈ entries → ToLower k ≠ "openshiftclusterid") →
  clusterIDLoop ToLower entries = "".
Proof.
  induction entries as [|[k v] rest IH]; intros H; simpl; [done|].
  destruct (decide _) as [Heq|_].
  - destruct (H k v); [by left | done].
  - apply IH. intros k' v' Hin. apply (H k' v'). by right.
Qed.

Lemma HasPrefix_empty s : HasPrefix s "" = true.
Proof. by destruct s. Qed.

Lemma filteredGroups_empty_prefix allServerGroups :
  filteredGroups allServerGroups "" = allServerGroups.
Proof.
  unfold filteredGroups.
  induction allServerGroups as [|g rest IH]; [done|]. simpl.
  by rewrite HasPrefix_empty, IH.
Qed.

Lemma volumeIDs_empty_prefix allVolumes volume :
  volume ∈ allVolumes → volumes.ID volume ∈ volumeIDs allVolumes "".
Proof.
  induction allVolumes as [|v rest IH]; intros Hin; [inversion Hin|].
  simpl. rewrite HasPrefix_empty.
  apply elem_of_cons in Hin as [->|Hin].
  - by left.
  - right. apply elem_of_app. right. by apply IH.
Qed.

End ClusterID.

(** C9: when no key of the filter lower-cases to [openshiftclusterid], the
    cluster ID extracted by the name-prefix tasks is the empty string;
    [deleteServerGroups] then keeps every listed server group and issues a
    delete call for each of them, and [deleteVolumes] issues a delete call
    for every listed volume. *)
Theorem no_cluster_key_selects_everything
    (ToLower : string → string) (filter : gmap string string)
    (Hnokey : ∀ k v, filter !! k = Some v →
                     ToLower k ≠ "openshiftclusterid") :
  clusterIDLoop ToLower (rangeMap filter) = ""
  ∧ (∀ allServerGroups,
       filteredGroups allServerGroups
         (clusterIDLoop ToLower (rangeMap filter)) = allServerGroups)
  ∧ (∀ allVolumes volume, volume ∈ allVolumes →
       volumes.ID volume ∈
         volumeIDs allVolumes (clusterIDLoop ToLower (rangeMap filter)))
  ∧ (∀ (cloud : Cloud) t allServerGroups,
       errOf (cloud t (NewServiceClient "compute")) = None →
       cloud (t ++ [NewServiceClient "compute"])%list ServerGroupsList
         = ServerGroups allServerGroups →
       snd (deleteServerGroups cloud ToLower filter t) =
         (t ++ [NewServiceClient "compute"; ServerGroupsList] ++
            map (λ g, ServerGroupsDelete (servergroups.ID g))
              allServerGroups)%list)
  ∧ (∀ (cloud : Cloud) t allVolumes volume,
       errOf (cloud t (NewServiceClient "volume")) = None →
       cloud (t ++ [NewServiceClient "volume"])%list VolumesList
         = Volumes allVolumes →
       volume ∈ allVolumes →
       VolumesDelete (volumes.ID volume) ∈
         snd (deleteVolumes cloud ToLower filter t)).
Proof.
  assert (Hid : clusterIDLoop ToLower (rangeMap filter) = "").
  { apply clusterIDLoop_no_key. intros k v Hin.
    apply elem_of_map_to_list in Hin. by eapply Hnokey. }
  rewrite Hid. split; [done|]. split; [apply filteredGroups_empty_prefix|].
  split; [apply volumeIDs_empty_prefix|]. split.
  - intros cloud t all Hconn Hlist.
    unfold deleteServerGroups, bind, call. simpl.
    rewrite Hconn, Hlist, Hid, filteredGroups_empty_prefix.
    destruct (deleteServerGroups_loop cloud all 0 _) as [n t'] eqn:E.
    simpl. change t' with (snd (n, t')). rewrite <- E.
    rewrite deleteServerGroups_loop_trace, <- !app_assoc. done.
  - intros cloud t all volume Hconn Hlist Hin.
    unfold deleteVolumes, bind, call. simpl.
    rewrite Hconn, Hlist, Hid.
    destruct (deleteVolumes_loop cloud _ 0 _) as [n t'] eqn:E.
    simpl. change t' with (snd (n, t')). rewrite <- E.
    rewrite deleteVolumes_loop_trace. apply elem_of_app. right.
    apply list_elem_of_fmap. exists (volumes.ID volume). split; [done|].
    by apply volumeIDs_empty_prefix.
Qed.

(** A filter whose only key is [owner] has no cluster-ID key. *)
Lemma no_cluster_key_selects_everything_witness :
  clusterIDLoop asciiToLower (rangeMap {[ "owner" := "me" ]}) = ""
  ∧ filteredGroups [servergroups.mk "g1" "abc-master"]
      (clusterIDLoop asciiToLower (rangeMap {[ "owner" := "me" ]}))
    = [servergroups.mk "g1" "abc-master"].
Proof.
  destruct (no_cluster_key_selects_everything asciiToLower
              {[ "owner" := "me" ]}) as (H1 & H2 & _).
  - intros k v H. apply lookup_singleton_Some in H as [<- <-].
    vm_compute. discriminate.
  - split; [exact H1 | apply H2].
Defined.

(** ** Retry wrapper *)

Lemma ExponentialBackoff_abort steps condition t ok err t' :
  condition t = ((ok, Some err), t') →
  ExponentialBackoff (S steps) condition t = (Some err, t').
Proof. intros H. simpl. unfold bind. rewrite H. by destruct ok. Qed.

Lemma ExponentialBackoff_done steps condition t t' :
  condition t = ((true, None), t') →
  ExponentialBackoff (S steps) condition t = (None, t').
Proof. intros H. simpl. unfold bind. by rewrite H. Qed.

Lemma ExponentialBackoff_retry steps condition t t' :
  condition t = ((false, None), t') →
  ExponentialBackoff (S steps) condition t =
  ExponentialBackoff steps condition t'.
Proof. intros H. simpl. unfold bind. by rewrite H. Qed.

(** ** Primary-network untagging *)

(** C4, as stated, fails: with exactly one tagged network and a not-found
    answer to the tag-delete call the task does not report success. *)
Lemma untagPrimaryNetwork_not_found_counterexample :
  ¬ (∀ (cloud : Cloud) (infraID : string) (t : Trace) network,
       let networkTag := infraID +:+ "-primaryClusterNetwork" in
       let listed := (t ++ [NewServiceClient "network";
                            NetworksList (networks.mkOpts networkTag "")])%list in
       errOf (cloud t (NewServiceClient "network")) = None →
       cloud (t ++ [NewServiceClient "network"])%list
             (NetworksList (networks.mkOpts networkTag "")) = Networks [network] →
       (∃ err, cloud listed (AttributestagsDelete "networks"
                               (networks.ID network) networkTag) = Failed err
               ∧ ResponseCodeIs err StatusNotFound = true) →
       fst (untagPrimaryNetwork cloud infraID t) = (true, None)).
Proof.
  intros H.
  specialize (H (networksCloud [net1] (Failed (ErrUnexpectedResponseCode 404)))
                "infra" [] net1).
  simpl in H.
  assert (Hres : (false, @None error) = (true, None)); [|discriminate Hres].
  apply H; [done | done |].
  exists (ErrUnexpectedResponseCode 404). split; reflexivity.
Qed.

(** C4, amended: once the client is built and the tagged networks are
    listed, zero networks give [(true, nil)] without any further call; more
    than one give a non-nil error, and [untagRunner] then returns that error
    wrapped after this single attempt; exactly one network gets one
    tag-delete call, and the task returns [(true, nil)] when that call
    answers without error and [(false, nil)] on any error, not-found
    included. *)
Theorem untagPrimaryNetwork_cases
    (cloud : Cloud) (infraID : string) (t : Trace)
    (allNetworks : list networks.Network)
    (Hconn : errOf (cloud t (NewServiceClient "network")) = None)
    (Hlist : cloud (t ++ [NewServiceClient "network"])%list
               (NetworksList
                  (networks.mkOpts (infraID +:+ "-primaryClusterNetwork") ""))
             = Networks allNetworks) :
  let networkTag := infraID +:+ "-primaryClusterNetwork" in
  let listed := (t ++ [NewServiceClient "network";
                       NetworksList (networks.mkOpts networkTag "")])%list in
  (allNetworks = [] →
     untagPrimaryNetwork cloud infraID t = ((true, None), listed)
     ∧ untagRunner cloud infraID t = (None, listed))
  ∧ (1 < length allNetworks →
     ∃ err,
       untagPrimaryNetwork cloud infraID t = ((false, Some err), listed)
       ∧ untagRunner cloud infraID t =
           (Some (ErrWrap "unrecoverable error" err), listed))
  ∧ (∀ network, allNetworks = [network] →
     let tagDelete :=
       AttributestagsDelete "networks" (networks.ID network) networkTag in
     untagPrimaryNetwork cloud infraID t =
       ((match errOf (cloud listed tagDelete) with
         | None => true
         | Some _ => false
         end, None), (listed ++ [tagDelete])%list)).
Proof.
  intros networkTag listed.
  assert (Hl : listed = ((t ++ [NewServiceClient "network"]) ++
                 [NetworksList (networks.mkOpts networkTag "")])%list).
  { unfold listed. by rewrite <- app_assoc. }
  split; [|split].
  - intros ->.
    assert (H : untagPrimaryNetwork cloud infraID t = ((true, None), listed)).
    { unfold untagPrimaryNetwork, bind, call. rewrite Hconn, Hlist. simpl.
      by rewrite Hl. }
    split; [done|]. unfold untagRunner, bind.
    by rewrite (ExponentialBackoff_done _ _ _ _ H).
  - intros Hlen.
    exists (ErrMessage ("more than one network with tag " +:+ networkTag)).
    assert (H : untagPrimaryNetwork cloud infraID t =
                ((false, Some (ErrMessage
                    ("more than one network with tag " +:+ networkTag))),
                 listed)).
    { unfold untagPrimaryNetwork, bind, call. rewrite Hconn, Hlist.
      destruct (Nat.ltb_spec 1 (length allNetworks)) as [_|Hge]; [|lia].
      unfold ret. by rewrite Hl. }
    split; [done|]. unfold untagRunner, bind.
    by rewrite (ExponentialBackoff_abort _ _ _ _ _ _ H).
  - intros network -> tagDelete.
    unfold untagPrimaryNetwork, bind, call. rewrite Hconn, Hlist. simpl.
    fold networkTag. fold tagDelete. rewrite <- Hl.
    by destruct (errOf (cloud listed tagDelete)).
Qed.

Lemma untagPrimaryNetwork_cases_witness :
  untagPrimaryNetwork
    (networksCloud [net1] (Failed (ErrUnexpectedResponseCode 404)))
    "infra" []
  = ((false, None),
     [NewServiceClient "network";
      NetworksList (networks.mkOpts "infra-primaryClusterNetwork" "");
      AttributestagsDelete "networks" "n1" "infra-primaryClusterNetwork"]).
Proof.
  destruct (untagPrimaryNetwork_cases
              (networksCloud [net1] (Failed (ErrUnexpectedResponseCode 404)))
              "infra" [] [net1]) as (_ & _ & H).
  - reflexivity.
  - reflexivity.
  - exact (H net1 eq_refl).
Defined.

(** ** Bulk object deletion *)

Section BulkDeleteProofs.

Variable cloud : Cloud.

(** No bulk-delete call is issued with an empty batch. *)
Lemma bulkDeleteLoop_no_empty_batch fuel container objectsOnPage errCh t :
  ∃ calls,
    snd (bulkDeleteLoop cloud fuel container objectsOnPage errCh t) =
      (t ++ calls)%list
    ∧ Forall (λ batch, batch ≠ []) (bulkBatches calls).
Proof.
  revert objectsOnPage errCh t.
  induction fuel as [|fuel IH]; intros objs errCh t; simpl.
  - exists []. by rewrite app_nil_r.
  - destruct objs as [|o rest]; simpl.
    + exists []. by rewrite app_nil_r.
    + unfold bind, call.
      set (c := ObjectsBulkDelete container (o :: rest)).
      assert (Hone : ∀ t', t' = (t ++ [c])%list →
                ∃ calls, t' = (t ++ calls)%list
                         ∧ Forall (λ batch, batch ≠ []) (bulkBatches calls)).
      { intros t' ->. exists [c]. split; [done|]. by repeat constructor. }
      destruct (cloud t c) as [| | | | | | | | | | | |resp]; simpl;
        try (by apply Hone).
      destruct (_ || _); simpl; [by apply Hone|].
      destruct (IH (drop (Z.to_nat (objects.NumberDeleted resp +
                                     objects.NumberNotFound resp)) (o :: rest))
                   (errCh ++ map objectError (objects.Errors resp))%list
                   (t ++ [c])%list) as (calls & Heq & Hall).
      exists (c :: calls). rewrite Heq. split.
      * by rewrite <- app_assoc.
      * simpl. by constructor.
Qed.

(** After a call that answers without error, the unit goes on with the batch
    shortened by [NumberDeleted + NumberNotFound] objects. *)
Lemma bulkDeleteLoop_shrinks fuel container objectsOnPage errCh t resp :
  objectsOnPage ≠ [] →
  cloud t (ObjectsBulkDelete container objectsOnPage) = BulkDeleted resp →
  let n := (objects.NumberDeleted resp + objects.NumberNotFound resp)%Z in
  (0 ≤ n ≤ Z.of_nat (length objectsOnPage))%Z →
  bulkDeleteLoop cloud (S fuel) container objectsOnPage errCh t =
  bulkDeleteLoop cloud fuel container (drop (Z.to_nat n) objectsOnPage)
    (errCh ++ map objectError (objects.Errors resp))%list
    (t ++ [ObjectsBulkDelete container objectsOnPage])%list
  ∧ length (drop (Z.to_nat n) objectsOnPage) =
      length objectsOnPage - Z.to_nat n.
Proof.
  intros Hne Hreply n Hn. split; [|apply length_drop].
  destruct objectsOnPage as [|o rest]; [done|].
  simpl. unfold bind, call. rewrite Hreply. fold n.
  destruct (Z.ltb_spec n 0) as [|_]; [lia|].
  destruct (Z.ltb_spec (Z.of_nat (S (length rest))) n) as [Hlt|_]; [|done].
  change (S (length rest)) with (length (o :: rest)) in Hlt. lia.
Qed.

End BulkDeleteProofs.

(** C7: the claim asks that the bulk-deletion loop ends as soon as an error
    occurs.  The unit returns only when the call itself fails; when the
    response lists per-object errors it sends them, logs that it is
    terminating, and goes on.  On the page [a, b], with a provider that
    deletes [a] and reports a conflict on [b], the unit issues a second call
    with the batch [b] after the error, and then calls again and again with
    that batch: for every amount of fuel the loop has not ended. *)
Theorem bulkDeleteLoop_goes_on_after_errors :
  bulkDeleteLoop conflictCloud 2 "c" ["a"; "b"] [] []
  = ((OutOfFuel, [objectError ("b", "409 Conflict");
                  objectError ("b", "409 Conflict")]),
     [ObjectsBulkDelete "c" ["a"; "b"]; ObjectsBulkDelete "c" ["b"]])
  ∧ ∀ fuel errCh t,
      fst (fst (bulkDeleteLoop conflictCloud fuel "c" ["b"] errCh t))
      = OutOfFuel.
Proof.
  split; [vm_compute; reflexivity|].
  induction fuel as [|fuel IH]; intros errCh t; [done|].
  simpl. unfold bind, call. simpl. apply IH.
Qed.

(** ** Router interface removal *)

Section RouterInterfacesProofs.

Variable cloud : Cloud.
Variable routerID : string.
Variable clusterRouter : bool.
Variable allSubnets : list subnets.Subnet.

Lemma removeInv_insert removed st subnetID custom :
  removeInv removed st →
  wasRemoved st subnetID = false →
  removeInv (removed ++ [subnetID])
    (mkRemoveState (S (numberDeleted st)) custom
       (<[subnetID := true]> (removedSubnets st))).
Proof.
  intros (Hnd & Hiff & Hlen) Hnot. split; [|split].
  - apply NoDup_app. split; [done|]. split; [|apply NoDup_singleton].
    intros x Hx Hx1. apply list_elem_of_singleton in Hx1 as ->.
    apply Hiff in Hx. congruence.
  - intros s. unfold wasRemoved. simpl. rewrite elem_of_app, list_elem_of_singleton.
    destruct (decide (subnetID = s)) as [->|Hne].
    + rewrite lookup_insert_eq. simpl. split; [by right | done].
    + rewrite lookup_insert_ne by done. fold (wasRemoved st s).
      rewrite Hiff. split; [by left | by intros [?| ->]].
  - simpl. rewrite length_app. simpl. lia.
Qed.

Lemma fixedIPsLoop_inv port fixedIPs st t removed :
  removeInv removed st →
  ∃ removed',
    snd (fixedIPsLoop cloud routerID clusterRouter allSubnets port
           fixedIPs st t)
      = (t ++ map (RoutersRemoveInterface routerID) removed')%list
    ∧ NoDup (removed ++ removed')
    ∧ (∀ subnetID, subnetID ∈ removed' →
         (∃ IP, IP ∈ fixedIPs ∧ ports.SubnetID IP = subnetID)
         ∧ (clusterRouter = false →
            isClusterSubnet allSubnets subnetID = true))
    ∧ match fst (fixedIPsLoop cloud routerID clusterRouter allSubnets port
                   fixedIPs st t) with
      | Some st' =>
          removeInv (removed ++ removed') st'
          ∧ customInterfaces st' =
              (customInterfaces st ++
               map (λ _, port)
                 (List.filter
                    (λ IP, negb clusterRouter &&
                           negb (isClusterSubnet allSubnets
                                   (ports.SubnetID IP))) fixedIPs))%list
      | None =>
          answeredOrGone cloud t
            (map (RoutersRemoveInterface routerID) removed') = false
      end.
Proof.
  revert st t removed.
  induction fixedIPs as [|IP rest IH]; intros st t removed Hinv.
  - exists []. simpl. rewrite !app_nil_r.
    split; [done|]. split; [by destruct Hinv|].
    split; [intros s Hs; inversion Hs|]. done.
  - simpl.
    destruct (negb clusterRouter &&
              negb (isClusterSubnet allSubnets (ports.SubnetID IP))) eqn:Hc.
    { (* custom interface *)
      destruct (IH (mkRemoveState (numberDeleted st)
                      (customInterfaces st ++ [port])%list (removedSubnets st))
                   t removed) as (removed' & Htr & Hnd & Hsub & Hres).
      { destruct Hinv as (H1 & H2 & H3). split; [done|]. split; done. }
      exists removed'. split; [done|]. split; [done|]. split.
      - intros s Hs. destruct (Hsub s Hs) as [(ip & Hip & Heq) Hcl].
        split; [|done]. exists ip. split; [by right|done].
      - destruct (fst _); [|done]. destruct Hres as [Hi Hcu].
        split; [done|]. rewrite Hcu. simpl. by rewrite <- app_assoc. }
    assert (Hcluster : clusterRouter = false →
              isClusterSubnet allSubnets (ports.SubnetID IP) = true).
    { intros ->. simpl in Hc. by destruct (isClusterSubnet _ _). }
    destruct (wasRemoved st (ports.SubnetID IP)) eqn:Hwas; simpl.
    { (* this subnet was detached before *)
      destruct (IH st t removed Hinv) as (removed' & Htr & Hnd & Hsub & Hres).
      exists removed'. split; [done|]. split; [done|]. split; [|done].
      intros s Hs. destruct (Hsub s Hs) as [(ip & Hip & Heq) Hcl].
      split; [|done]. exists ip. split; [by right|done]. }
    unfold bind, call.
    set (c := RoutersRemoveInterface routerID (ports.SubnetID IP)).
    set (st' := mkRemoveState (S (numberDeleted st)) (customInterfaces st)
                  (<[ports.SubnetID IP:=true]> (removedSubnets st))).
    assert (Hinv' : removeInv (removed ++ [ports.SubnetID IP]) st')
      by (by apply removeInv_insert).
    assert (Hgo : ∀ (ok : match errOf (cloud t c) with
                          | None => true
                          | Some err => ResponseCodeIs err StatusNotFound
                          end = true), 
      ∃ removed',
        snd (fixedIPsLoop cloud routerID clusterRouter allSubnets port rest
               st' (t ++ [c])%list)
          = (t ++ map (RoutersRemoveInterface routerID) removed')%list
        ∧ NoDup (removed ++ removed')
        ∧ (∀ subnetID, subnetID ∈ removed' →
             (∃ IP0, IP0 ∈ IP :: rest ∧ ports.SubnetID IP0 = subnetID)
             ∧ (clusterRouter = false →
                isClusterSubnet allSubnets subnetID = true))
        ∧ match fst (fixedIPsLoop cloud routerID clusterRouter allSubnets
                       port rest st' (t ++ [c])%list) with
          | Some st'' =>
              removeInv (removed ++ removed') st''
              ∧ customInterfaces st'' =
                  (customInterfaces st ++
                   map (λ _, port)
                     (List.filter
                        (λ IP, negb clusterRouter &&
                               negb (isClusterSubnet allSubnets
                                       (ports.SubnetID IP))) rest))%list
          | None =>
              answeredOrGone cloud t
                (map (RoutersRemoveInterface routerID) removed') = false
          end).
    { intros Hok.
      destruct (IH st' (t ++ [c])%list (removed ++ [ports.SubnetID IP])%list Hinv')
        as (removed' & Htr & Hnd & Hsub & Hres).
      exists (ports.SubnetID IP :: removed'). split; [|split; [|split]].
      - rewrite Htr. by rewrite <- app_assoc.
      - by rewrite <- app_assoc in Hnd.
      - intros s Hs. apply elem_of_cons in Hs as [->|Hs].
        + split; [|done]. exists IP. split; [by left|done].
        + destruct (Hsub s Hs) as [(ip & Hip & Heq) Hcl].
          split; [|done]. exists ip. split; [by right|done].
      - destruct (fst _).
        + destruct Hres as [Hi Hcu]. rewrite <- app_assoc in Hi. done.
        + simpl. fold c. rewrite Hok. done. }
    destruct (errOf (cloud t c)) as [err|] eqn:Herr.
    + destruct (ResponseCodeIs err StatusNotFound) eqn:H404; simpl.
      * by apply Hgo.
      * exists [ports.SubnetID IP]. simpl. fold c. rewrite Herr, H404.
        split; [done|]. split; [by destruct Hinv' as (? & _)|].
        split; [|done]. intros s Hs. apply list_elem_of_singleton in Hs as ->.
        split; [|done]. exists IP. split; [by left|done].
    + by apply Hgo.
Qed.

End RouterInterfacesProofs.

Section RemoveRouterInterfaces.

Variable cloud : Cloud.

Lemma answeredOrGone_app t calls calls' :
  answeredOrGone cloud t (calls ++ calls') =
  answeredOrGone cloud t calls && answeredOrGone cloud (t ++ calls) calls'.
Proof.
  revert t. induction calls as [|c rest IH]; intros t; simpl.
  - by rewrite app_nil_r.
  - rewrite IH, <- app_assoc. simpl. by rewrite andb_assoc.
Qed.

Lemma routerPortsLoop_inv routerID clusterRouter allSubnets allPorts st t
    removed :
  removeInv removed st →
  ∃ removed',
    snd (routerPortsLoop cloud routerID clusterRouter allSubnets allPorts st t)
      = (t ++ map (RoutersRemoveInterface routerID) removed')%list
    ∧ NoDup (removed ++ removed')
    ∧ (∀ subnetID, subnetID ∈ removed' →
         (∃ port IP, port ∈ allPorts ∧ IP ∈ ports.FixedIPs port
                     ∧ ports.SubnetID IP = subnetID)
         ∧ (clusterRouter = false →
            isClusterSubnet allSubnets subnetID = true))
    ∧ match fst (routerPortsLoop cloud routerID clusterRouter allSubnets
                   allPorts st t) with
      | Some st' =>
          removeInv (removed ++ removed') st'
          ∧ customInterfaces st' =
              (customInterfaces st ++
               customInterfacesOf clusterRouter allSubnets allPorts)%list
      | None =>
          answeredOrGone cloud t
            (map (RoutersRemoveInterface routerID) removed') = false
      end.
Proof.
  revert st t removed.
  induction allPorts as [|port rest IH]; intros st t removed Hinv.
  - exists []. simpl. rewrite !app_nil_r.
    split; [done|]. split; [by destruct Hinv|].
    split; [intros s Hs; inversion Hs|]. done.
  - simpl. unfold bind.
    destruct (fixedIPsLoop_inv cloud routerID clusterRouter allSubnets port
                (ports.FixedIPs port) st t removed Hinv)
      as (removed1 & Htr1 & Hnd1 & Hsub1 & Hres1).
    destruct (fixedIPsLoop cloud routerID clusterRouter allSubnets port
                (ports.FixedIPs port) st t) as [r t1].
    simpl in Htr1, Hres1. subst t1.
    assert (Hfrom1 : ∀ s, s ∈ removed1 →
              (∃ port0 IP, port0 ∈ port :: rest ∧ IP ∈ ports.FixedIPs port0
                           ∧ ports.SubnetID IP = s)
              ∧ (clusterRouter = false →
                 isClusterSubnet allSubnets s = true)).
    { intros s Hs. destruct (Hsub1 s Hs) as [(ip & Hip & Heq) Hcl].
      split; [|done]. exists port, ip. split; [by left|done]. }
    destruct r as [st1|]; simpl.
    + destruct Hres1 as [Hinv1 Hcu1].
      destruct (IH st1
                  (t ++ map (RoutersRemoveInterface routerID) removed1)%list
                  (removed ++ removed1)%list Hinv1)
        as (removed2 & Htr2 & Hnd2 & Hsub2 & Hres2).
      exists (removed1 ++ removed2)%list. split; [|split; [|split]].
      * rewrite Htr2, map_app, app_assoc. done.
      * by rewrite app_assoc.
      * intros s Hs. apply elem_of_app in Hs as [Hs|Hs]; [by apply Hfrom1|].
        destruct (Hsub2 s Hs) as [(p & ip & Hp & Hip & Heq) Hcl].
        split; [|done]. exists p, ip. split; [by right|done].
      * destruct (fst _).
        -- destruct Hres2 as [Hinv2 Hcu2]. rewrite app_assoc.
           split; [done|]. rewrite Hcu2, Hcu1.
           unfold customInterfacesOf, customIPs. simpl.
           by rewrite <- app_assoc.
        -- rewrite map_app, answeredOrGone_app, Hres2. apply andb_false_r.
    + exists removed1. done.
Qed.

End RemoveRouterInterfaces.



(** On the foreign router of the example the subnet [sub1], referenced by
    two fixed IPs, is detached once, the user's interface is left alone, and
    the task reports success. *)
Example removeRouterInterfaces_foreign_router_run :
  removeRouterInterfaces foreignRouterCloud abcFilter foreignRouter []
  = ((true, None),
     [PortsList (ports.mkOpts "" "r1" "");
      SubnetsList "openshiftClusterID=abc";
      RoutersRemoveInterface "r1" "sub1"]).
Proof. vm_compute. reflexivity. Qed.

(** ** Call-trace assertions *)

Section Emits.

Context {A B : Type}.
Implicit Types (P : Call → Prop).

Lemma emits_ret P (Q : A → Prop) (a : A) : Q a → emits P Q (ret a).
Proof. intros HQ t. exists []. by rewrite app_nil_r. Qed.

Lemma emits_bind P (Q : A → Prop) (R : B → Prop) (m : M A) (k : A → M B) :
  emits P Q m → (∀ a, Q a → emits P R (k a)) → emits P R (bind m k).
Proof.
  intros Hm Hk t. unfold bind.
  destruct (Hm t) as (calls1 & Htr1 & Hall1 & HQ).
  destruct (m t) as [a t1]. simpl in *. subst t1.
  destruct (Hk a HQ (t ++ calls1)) as (calls2 & Htr2 & Hall2 & HR).
  exists (calls1 ++ calls2). rewrite Htr2, app_assoc.
  split; [done|]. split; [by apply Forall_app|done].
Qed.

Lemma emits_weaken P (Q Q' : A → Prop) (m : M A) :
  emits P Q m → (∀ a, Q a → Q' a) → emits P Q' m.
Proof.
  intros Hm HQ t. destruct (Hm t) as (calls & Htr & Hall & Hq).
  exists calls. split; [done|]. split; [done|]. by apply HQ.
Qed.

End Emits.

Lemma emits_call (cloud : Cloud) (P : Call → Prop) (c : Call) :
  P c → emits P (λ _, True) (call cloud c).
Proof.
  intros HP t. exists [c]. split; [done|]. split; [|done].
  by constructor.
Qed.

(** ** The ports worker and security groups *)

Section PortsProofs.

Variable cloud : Cloud.
Variable sgByID0 : gmap string sg.SecGroup.

Lemma deleteTrunks_loop_emits allTrunks :
  emits (sgCallAllowed sgByID0) (λ _, True) (deleteTrunks_loop cloud allTrunks).
Proof.
  induction allTrunks as [|trunk rest IH]; simpl.
  - by apply emits_ret.
  - eapply emits_bind; [by apply emits_call|]. intros _ _. apply IH.
Qed.

Lemma deleteAssociatedTrunk_emits portID :
  emits (sgCallAllowed sgByID0) (λ _, True) (deleteAssociatedTrunk cloud portID).
Proof.
  unfold deleteAssociatedTrunk.
  eapply emits_bind; [by apply emits_call|]. intros r _.
  destruct r; try (by apply emits_ret). apply deleteTrunks_loop_emits.
Qed.

Lemma assignedSGsLoop_emits assignedSGs sgByID :
  sgByID ⊆ sgByID0 →
  emits (sgCallAllowed sgByID0) (λ sgByID', sgByID' ⊆ sgByID0)
    (assignedSGsLoop cloud assignedSGs sgByID).
Proof.
  revert sgByID. induction assignedSGs as [|groupID rest IH];
    intros sgByID Hsub; simpl.
  - by apply emits_ret.
  - destruct (sgByID !! groupID) as [group|] eqn:Hlook; [|by apply IH].
    destruct (cloudProviderSGNameMatch (sg.Name group)) eqn:Hmatch;
      [|by apply IH].
    assert (Hdel : delete groupID sgByID ⊆ sgByID0).
    { etrans; [apply delete_subseteq|done]. }
    eapply emits_bind.
    + apply emits_call. simpl. exists group. split; [|done].
      by eapply lookup_weaken.
    + intros r _. destruct (errOf r) as [err|]; [|by apply IH].
      destruct (ResponseCodeIs err StatusNotFound); by apply IH.
Qed.

Lemma deletePort_emits fipByPort port sgByID :
  sgByID ⊆ sgByID0 →
  emits (sgCallAllowed sgByID0) (λ r, fst r ⊆ sgByID0)
    (deletePort cloud fipByPort port sgByID).
Proof.
  intros Hsub. unfold deletePort.
  eapply emits_bind with (Q := λ _, True).
  - destruct (fipByPort !! ports.ID port) as [fip|]; [|by apply emits_ret].
    eapply emits_bind; [by apply emits_call|]. intros r _.
    destruct (errOf r); by apply emits_ret.
  - intros dissociated _. destruct dissociated; simpl; [|by apply emits_ret].
    eapply emits_bind; [by apply emits_call|]. intros _ _.
    eapply emits_bind; [by apply assignedSGsLoop_emits|].
    intros sgByID' Hsub'.
    eapply emits_bind; [by apply emits_call|]. intros r _.
    destruct (errOf r); [|by apply emits_ret].
    eapply emits_bind; [apply deleteAssociatedTrunk_emits|].
    intros _ _. by apply emits_ret.
Qed.

Lemma deletePortsWorker_emits fipByPort portsChannel sgByID localDeleted :
  sgByID ⊆ sgByID0 →
  emits (sgCallAllowed sgByID0) (λ r, fst r ⊆ sgByID0)
    (deletePortsWorker cloud fipByPort portsChannel sgByID localDeleted).
Proof.
  revert sgByID localDeleted.
  induction portsChannel as [|port rest IH]; intros sgByID n Hsub; simpl.
  - by apply emits_ret.
  - eapply emits_bind; [by apply deletePort_emits|].
    intros r Hr. by apply IH.
Qed.

End PortsProofs.

(** A port without floating IP always gets the update that clears its list
    of security groups. *)
Lemma deletePort_no_fip (cloud : Cloud) fipByPort port sgByID t :
  fipByPort !! ports.ID port = None →
  ∃ calls,
    snd (deletePort cloud fipByPort port sgByID t)
      = t ++ PortsUpdate (ports.ID port) [] :: calls.
Proof.
  intros Hfip. unfold deletePort. rewrite Hfip.
  unfold bind at 1. simpl. unfold bind at 1, call at 1. simpl.
  match goal with
  | |- context [snd (?m (t ++ [?c]))] =>
      assert (H : emits (sgCallAllowed sgByID) (λ _, True) m)
  end.
  { eapply emits_bind; [by apply assignedSGsLoop_emits|].
    intros sgByID' _.
    eapply emits_bind; [by apply emits_call|]. intros r _.
    destruct (errOf r); [|by apply emits_ret].
    eapply emits_bind; [apply deleteAssociatedTrunk_emits|].
    intros _ _. by apply emits_ret. }
  destruct (H (t ++ [PortsUpdate (ports.ID port) []])) as (calls & Htr & _).
  exists calls. rewrite Htr, <- app_assoc. done.
Qed.

Lemma deletePortsWorker_detaches (cloud : Cloud) fipByPort portsChannel
    sgByID localDeleted t port :
  port ∈ portsChannel → fipByPort !! ports.ID port = None →
  ∃ calls,
    snd (deletePortsWorker cloud fipByPort portsChannel sgByID localDeleted t)
      = t ++ calls
    ∧ PortsUpdate (ports.ID port) [] ∈ calls.
Proof.
  revert sgByID localDeleted t.
  induction portsChannel as [|p rest IH]; intros sgByID n t Hin Hfip;
    [inversion Hin|].
  simpl. unfold bind.
  apply elem_of_cons in Hin as [->|Hin];
    [|destruct (deletePort_emits cloud sgByID fipByPort p sgByID
                 (reflexivity _) t) as (calls1 & Htr1 & _ & _)].
  - destruct (deletePort_no_fip cloud fipByPort p sgByID t Hfip)
      as (calls1' & Htr1').
    destruct (deletePort cloud fipByPort p sgByID t) as [r t1].
    simpl in *. subst t1.
    destruct (deletePortsWorker_emits cloud (fst r) fipByPort rest (fst r)
                (if snd r then S n else n) (reflexivity _)
                (t ++ PortsUpdate (ports.ID p) [] :: calls1'))
      as (calls2 & Htr2 & _ & _).
    exists ((PortsUpdate (ports.ID p) [] :: calls1') ++ calls2).
    rewrite Htr2, <- app_assoc. split; [done|]. by left.
  - destruct (deletePort cloud fipByPort p sgByID t) as [r t1].
    simpl in *. subst t1.
    destruct (IH (fst r) (if snd r then S n else n) (t ++ calls1) Hin Hfip)
      as (calls2 & Htr2 & Hin2).
    exists (calls1 ++ calls2). rewrite Htr2, <- app_assoc.
    split; [done|]. apply elem_of_app. by right.
Qed.

(** C6: in the ports worker a security-group delete call is only issued for
    a group of the prefetched map whose name matches the managed
    load-balancer pattern; a group whose name does not match (or that is
    unknown) never gets a delete call; every port update of the worker sets
    the empty list of security groups, and a port without floating IP always
    gets that update. *)
Theorem deletePortsWorker_deletes_only_managed_groups :
  ∀ (cloud : Cloud) (fipByPort : gmap string floatingips.FloatingIP)
    (portsChannel : list ports.Port) (sgByID : gmap string sg.SecGroup)
    (localDeleted : nat) (t : Trace),
  ∃ calls,
    snd (deletePortsWorker cloud fipByPort portsChannel sgByID localDeleted t)
      = t ++ calls
    ∧ (∀ groupID, SecGroupsDelete groupID ∈ calls →
         ∃ group, sgByID !! groupID = Some group
                  ∧ cloudProviderSGNameMatch (sg.Name group) = true)
    ∧ (∀ groupID,
         (∀ group, sgByID !! groupID = Some group →
                   cloudProviderSGNameMatch (sg.Name group) = false) →
         SecGroupsDelete groupID ∉ calls)
    ∧ (∀ portID securityGroups,
         PortsUpdate portID securityGroups ∈ calls → securityGroups = [])
    ∧ (∀ port, port ∈ portsChannel → fipByPort !! ports.ID port = None →
         PortsUpdate (ports.ID port) [] ∈ calls).
Proof.
  intros cloud fipByPort portsChannel sgByID n t.
  destruct (deletePortsWorker_emits cloud sgByID fipByPort portsChannel sgByID
              n (reflexivity _) t) as (calls & Htr & Hall & _).
  exists calls. split; [done|].
  rewrite Forall_forall in Hall.
  assert (Hdel : ∀ groupID, SecGroupsDelete groupID ∈ calls →
            ∃ group, sgByID !! groupID = Some group
                     ∧ cloudProviderSGNameMatch (sg.Name group) = true).
  { intros groupID Hin. exact (Hall _ Hin). }
  split; [done|]. split; [|split].
  - intros groupID Hno Hin. destruct (Hdel _ Hin) as (group & Hl & Hm).
    rewrite (Hno _ Hl) in Hm. discriminate.
  - intros portID sgs Hin. exact (Hall _ Hin).
  - intros port Hin Hfip.
    destruct (deletePortsWorker_detaches cloud fipByPort portsChannel sgByID
                n t port Hin Hfip) as (calls' & Htr' & Hin').
    rewrite Htr in Htr'. apply app_inv_head in Htr'. by subst.
Qed.

(** The worker of the example: the managed group is deleted, the default
    group is only detached. *)
Example deletePorts_run :
  deletePorts portsCloud (ports.mkOpts "" "" "openshiftClusterID=abc") []
  = ((true, None),
     [NewServiceClient "network";
      PortsList (ports.mkOpts "" "" "openshiftClusterID=abc");
      FloatingIPsList (floatingips.mkOpts "");
      SecGroupsList;
      PortsUpdate "p1" [];
      SecGroupsDelete "sg-lb";
      PortsDelete "p1"]).
Proof. vm_compute. reflexivity. Qed.

(** ** Leftover load balancers *)


Section NetworksProofs.

Variable cloud : Cloud.




End NetworksProofs.

Section LeftoverLoadBalancers.

Variable cloud : Cloud.



End LeftoverLoadBalancers.




(** Scenario C of the specification: both leftover load balancers are
    deleted, each after its floating IP, and only then the dangling port of
    the network. *)
Example deleteNetworks_scenario_C :
  snd (deleteNetworks (leftoverCloud [lbA; lbB]) abcFilter [])
  = [NewServiceClient "network";
     NetworksList (networks.mkOpts "" "openshiftClusterID=abc");
     NetworksDelete "n1";
     NewServiceClient "load-balancer"; LoadBalancersList "n1";
     NewServiceClient "network"; FloatingIPsList (floatingips.mkOpts "vipA");
     FloatingIPsDelete "fip-vipA"; LoadBalancersDelete "lbA" true;
     NewServiceClient "network"; FloatingIPsList (floatingips.mkOpts "vipB");
     FloatingIPsDelete "fip-vipB"; LoadBalancersDelete "lbB" true;
     NewServiceClient "network"; PortsList (ports.mkOpts "n1" "" "");
     FloatingIPsList (floatingips.mkOpts ""); SecGroupsList;
     PortsUpdate "dangling" []; PortsDelete "dangling"].
Proof. vm_compute. reflexivity. Qed.

(** ** The orchestrator *)

Lemma snoc_split {A} (l l1 l2 : list A) (e x : A) :
  l ++ [e] = l1 ++ x :: l2 →
  (l2 = [] ∧ l1 = l ∧ e = x) ∨ (∃ l2', l2 = l2' ++ [e] ∧ l = l1 ++ x :: l2').
Proof.
  destruct l2 as [|y l2 _] using rev_ind; intros Heq.
  - apply app_inj_tail in Heq as [-> ->]. by left.
  - right. exists l2.
    change (l1 ++ x :: l2 ++ [y]) with (l1 ++ (x :: l2) ++ [y]) in Heq.
    rewrite app_assoc in Heq. apply app_inj_tail in Heq as [-> ->]. done.
Qed.

Lemma signalsBeforeRouters_snoc funcs l e :
  signalsBeforeRouters funcs l →
  (e = RouterStart → ∀ name, name ∈ funcs → Signal name ∈ l) →
  signalsBeforeRouters funcs (l ++ [e]).
Proof.
  intros Hl He l1 l2 Heq name Hin.
  apply snoc_split in Heq as [(_ & -> & ->)|(l2' & _ & ->)].
  - by apply He.
  - by apply (Hl l1 l2').
Qed.

Lemma routersBeforeUntag_snoc l e :
  routersBeforeUntag l →
  (e = UntagStart →
   RouterDone None ∈ l ∧ ∀ err, RouterDone (Some err) ∉ l) →
  (∀ err, e = RouterDone (Some err) → UntagStart ∉ l) →
  routersBeforeUntag (l ++ [e]).
Proof.
  intros [Hl1 Hl2] Hu Hr. split.
  - intros l1 l2 Heq.
    apply snoc_split in Heq as [(_ & -> & ->)|(l2' & _ & ->)].
    + by apply Hu.
    + by apply (Hl1 l1 l2').
  - intros err Hin Hun.
    apply elem_of_app in Hin as [Hin|Hin], Hun as [Hun|Hun].
    + by apply (Hl2 err).
    + apply list_elem_of_singleton in Hun as <-.
      destruct Hu as [_ Hno]; [done|]. by apply (Hno err).
    + apply list_elem_of_singleton in Hin as <-. by apply (Hr err).
    + apply list_elem_of_singleton in Hin as <-.
      apply list_elem_of_singleton in Hun. discriminate.
Qed.

Section RunProofs.

Variable funcs : gset string.

Lemma runInv_initial : runInv funcs initial.
Proof.
  unfold runInv, initial, signalsBeforeRouters, routersBeforeUntag. simpl.
  split; [set_solver|]. split; [set_solver|]. split; [set_solver|].
  split; [set_solver|]. split; [done|]. split.
  { split; [|split]; [apply not_elem_of_nil..|].
    intros err. apply not_elem_of_nil. }
  split.
  { intros l1 l2 Heq. by destruct l1. }
  split.
  - intros l1 l2 Heq. by destruct l1.
  - intros err Hin. by apply not_elem_of_nil in Hin.
Qed.

Lemma runInv_intro s :
  launched s ⊆ funcs →
  running s ## sending s →
  (running s ∪ sending s) ## finished s →
  (∀ name, name ∈ finished s → Signal name ∈ log s) →
  receivedSoFar funcs (main s) (finished s) →
  phaseFacts (main s) (log s) →
  signalsBeforeRouters funcs (log s) →
  routersBeforeUntag (log s) →
  runInv funcs s.
Proof.
  intros H1 H2 H3 H4 H5 H6 H7 H8.
  exact (conj H1 (conj H2 (conj H3 (conj H4 (conj H5 (conj H6
           (conj H7 H8))))))).
Qed.

(** Every enabled action preserves the invariant. *)
Lemma exec_inv s a s' :
  runInv funcs s → exec funcs s a = Some s' → runInv funcs s'.
Proof.
  intros (Hsub & Hrs & Hdisj & Hsig & Hwait & Hphase & Hsb & Hru) Hexec.
  destruct s as [m run snd fin l]. unfold exec, launched in *.
  simpl in *.
  destruct a as [[err|]|name| |name [err|]|name| |[err|]| |err];
    destruct m; simpl in Hexec; try discriminate.
  all: repeat case_decide; try discriminate.
  all: injection Hexec as <-.
  all: unfold setMain; apply runInv_intro.
  all: lazymatch goal with
    | |- launched _ ⊆ _ => unfold launched; simpl; set_solver
    | |- _ ## _ => simpl; set_solver
    | |- ∀ name, _ → _ =>
        simpl; intros n Hn; rewrite ?app_nil_r, ?elem_of_app;
        first [by apply Hsig | left; by apply Hsig
              | apply elem_of_union in Hn as [Hn|Hn];
                [right; set_solver | left; by apply Hsig]]
    | |- receivedSoFar _ _ _ =>
        simpl in *;
        first [done
              | subst fin; by rewrite size_empty
              | rewrite size_union by set_solver;
                rewrite size_singleton; lia
              | apply set_subseteq_size_eq; [set_solver|lia]]
    | |- phaseFacts _ _ =>
        simpl in *; rewrite ?app_nil_r;
        repeat setoid_rewrite elem_of_app;
        repeat setoid_rewrite list_elem_of_singleton; naive_solver
    | |- signalsBeforeRouters _ _ =>
        simpl; rewrite ?app_nil_r;
        first [done
              | apply signalsBeforeRouters_snoc; [done|];
                intros He;
                first [discriminate He
                      | intros n Hn; apply Hsig; simpl in Hwait;
                        assert (Hall : fin = funcs)
                          by (apply set_subseteq_size_eq; [set_solver|lia]);
                        by rewrite Hall]]
    | |- routersBeforeUntag _ =>
        simpl; rewrite ?app_nil_r;
        first [done
              | apply routersBeforeUntag_snoc;
                [done
                |intros He;
                 first [discriminate He
                       | simpl in Hphase; by destruct Hphase as (_ & ? & ?)]
                |intros e He;
                 first [discriminate He
                       | simpl in Hphase; by destruct Hphase]]]
    end.
Qed.

Lemma execAll_inv schedule s s' :
  runInv funcs s → execAll funcs s schedule = Some s' → runInv funcs s'.
Proof.
  revert s. induction schedule as [|a rest IH]; intros s Hinv Hrun;
    simpl in Hrun.
  - by injection Hrun as <-.
  - destruct (exec funcs s a) as [s1|] eqn:Hexec; [|discriminate].
    apply (IH s1); [by eapply exec_inv|done].
Qed.

End RunProofs.

(** C2: along every schedule of [Run], the call of [deleteRouterRunner] is
    recorded only after the name of every entry of [deleteFuncs] has been
    received on the channel; while the main goroutine is in the router or
    untagging phase no [deleteRunner] goroutine is running or waiting to
    send; the call of [untagRunner] is recorded only after
    [deleteRouterRunner] has returned nil, and never when it returned an
    error. *)
Theorem Run_routers_after_all_signals
    (schedule : list Action) (s : RunState)
    (Hrun : execAll deleteFuncs initial schedule = Some s) :
  (∀ l1 l2, log s = l1 ++ RouterStart :: l2 →
     ∀ name, name ∈ deleteFuncs → Signal name ∈ l1)
  ∧ (main s = InRouters ∨ main s = AfterRouters ∨ main s = InUntag →
     finished s = deleteFuncs ∧ running s = ∅ ∧ sending s = ∅)
  ∧ (∀ l1 l2, log s = l1 ++ UntagStart :: l2 → RouterDone None ∈ l1)
  ∧ (∀ err, RouterDone (Some err) ∈ log s → UntagStart ∉ log s).
Proof.
  destruct (execAll_inv deleteFuncs schedule initial s
              (runInv_initial deleteFuncs) Hrun)
    as (Hsub & Hrs & Hdisj & Hsig & Hwait & Hphase & Hsb & [Hru1 Hru2]).
  split; [exact Hsb|]. split; [|by split].
  intros Hmain.
  assert (Hfin : finished s = deleteFuncs).
  { destruct Hmain as [H|[H|H]]; rewrite H in Hwait; exact Hwait. }
  unfold launched in Hsub. rewrite Hfin in Hsub, Hdisj.
  split; [done|]. split; apply leibniz_equiv; set_solver.
Qed.

Lemma Run_routers_after_all_signals_witness :
  ∃ s, execAll deleteFuncs initial (fullSchedule deleteFuncNames) = Some s
       ∧ main s = Returned None
       ∧ (∀ l1 l2, log s = l1 ++ RouterStart :: l2 →
            ∀ name, name ∈ deleteFuncs → Signal name ∈ l1).
Proof.
  eexists. split; [vm_compute; reflexivity|]. split; [reflexivity|].
  apply (Run_routers_after_all_signals (fullSchedule deleteFuncNames)).
  vm_compute. reflexivity.
Defined.

(** * Further properties of the code *)

(** ** Tag strings and membership tests *)

(** X1: [filterTags] yields one [key=value] string per entry of the filter
    and nothing else; for the empty filter it yields no tag, so the joined
    [TagsAny] option is the empty string. *)
Theorem filterTags_one_tag_per_entry :
  ∀ filters : gmap string string,
    length (filterTags filters) = size filters
    ∧ (∀ tag, tag ∈ filterTags filters ↔
         ∃ key val, filters !! key = Some val ∧ tag = key +:+ "=" +:+ val)
    ∧ Join (filterTags ∅) "," = "".
Proof.
  intros filters. split; [|split].
  - unfold filterTags, rangeMap. by rewrite length_map, length_map_to_list.
  - intros tag. unfold filterTags, rangeMap. rewrite list_elem_of_fmap. split.
    + intros ([key val] & -> & Hin). apply elem_of_map_to_list in Hin.
      by exists key, val.
    + intros (key & val & Hlook & ->). exists (key, val).
      split; [done|]. by apply elem_of_map_to_list.
  - unfold filterTags, rangeMap. by rewrite map_to_list_empty.
Qed.

(** X2: the three linear searches answer the membership question:
    [isClusterRouter] for the cluster tag among the router's tags,
    [isClusterSubnet] for a subnet ID among the listed subnets, and
    [isClusterSG] for a group ID among the cluster's security groups. *)
Theorem membership_tests_decide :
  (∀ clusterTag tags, isClusterRouter clusterTag tags = true ↔
                      clusterTag ∈ tags)
  ∧ (∀ subnets subnetID, isClusterSubnet subnets subnetID = true ↔
                         subnetID ∈ map subnets.ID subnets)
  ∧ (∀ providedPortSG clusterSGs,
       isClusterSG providedPortSG clusterSGs = true ↔
       providedPortSG ∈ map sg.ID clusterSGs).
Proof.
  split; [|split].
  - intros clusterTag tags. induction tags as [|tag rest IH]; simpl.
    + split; [done|]. intros H. inversion H.
    + rewrite elem_of_cons. destruct (decide (clusterTag = tag)) as [->|Hne].
      * split; [by left|done].
      * rewrite IH. split; [by right|]. by intros [?|?].
  - intros subnets subnetID. induction subnets as [|subnet rest IH]; simpl.
    + split; [done|]. intros H. inversion H.
    + rewrite elem_of_cons.
      destruct (decide (subnets.ID subnet = subnetID)) as [->|Hne].
      * split; [by left|done].
      * rewrite IH. split; [by right|]. by intros [?|?].
  - intros x clusterSGs. induction clusterSGs as [|g rest IH]; simpl.
    + split; [done|]. intros H. inversion H.
    + rewrite elem_of_cons. destruct (decide (x = sg.ID g)) as [->|Hne].
      * split; [by left|done].
      * rewrite IH. split; [by right|]. by intros [?|?].
Qed.

Lemma isClusterSG_elem x clusterSGs :
  isClusterSG x clusterSGs = true ↔ x ∈ map sg.ID clusterSGs.
Proof.
  induction clusterSGs as [|g rest IH]; simpl.
  - split; [done|]. intros H. inversion H.
  - rewrite elem_of_cons. destruct (decide (x = sg.ID g)) as [->|Hne].
    + split; [by left|done].
    + rewrite IH. split; [by right|]. by intros [?|?].
Qed.

Lemma elem_of_cleanClusterSgs x providedPortSGs clusterSGs :
  x ∈ cleanClusterSgs providedPortSGs clusterSGs ↔
  x ∈ providedPortSGs ∧ x ∉ map sg.ID clusterSGs.
Proof.
  induction providedPortSGs as [|p rest IH]; simpl.
  - split; [intros H; inversion H|]. intros [H _]. inversion H.
  - destruct (isClusterSG p clusterSGs) eqn:Hp; simpl.
    + apply isClusterSG_elem in Hp. rewrite IH, elem_of_cons.
      split; [intros [? ?]; split; [by right|done]|].
      intros [[->|?] ?]; [done|by split].
    + assert (Hnot : p ∉ map sg.ID clusterSGs).
      { intros H. apply isClusterSG_elem in H. congruence. }
      rewrite !elem_of_cons, IH. split.
      * intros [->|[? ?]]; [by split; [left|]|by split; [right|]].
      * intros [[->|?] ?]; [by left|by right].
Qed.

(** X3: [cleanClusterSgs] keeps, in their order, exactly the groups of the
    port that are not security groups of the cluster; applying it twice
    changes nothing more, and without cluster groups the list is returned
    as it is. *)
Theorem cleanClusterSgs_keeps_foreign_groups :
  ∀ (providedPortSGs : list string) (clusterSGs : list sg.SecGroup),
    (∀ x, x ∈ cleanClusterSgs providedPortSGs clusterSGs ↔
          x ∈ providedPortSGs ∧ x ∉ map sg.ID clusterSGs)
    ∧ sublist (cleanClusterSgs providedPortSGs clusterSGs) providedPortSGs
    ∧ cleanClusterSgs (cleanClusterSgs providedPortSGs clusterSGs) clusterSGs
      = cleanClusterSgs providedPortSGs clusterSGs
    ∧ cleanClusterSgs providedPortSGs [] = providedPortSGs.
Proof.
  intros providedPortSGs clusterSGs.
  split; [intros x; apply elem_of_cleanClusterSgs|]. split; [|split].
  - induction providedPortSGs as [|p rest IH]; simpl; [constructor|].
    destruct (isClusterSG p clusterSGs); simpl; by constructor.
  - induction providedPortSGs as [|p rest IH]; simpl; [done|].
    destruct (isClusterSG p clusterSGs) eqn:Hp; simpl; [done|].
    by rewrite Hp, IH.
  - induction providedPortSGs as [|p rest IH]; simpl; [done|].
    by rewrite IH.
Qed.

(** ** The name pattern of managed security groups *)

Lemma matchLit_spec lit s r :
  matchLit lit s = Some r → s = lit +:+ r.
Proof.
  revert s. induction lit as [|a lit IH]; intros s H; simpl in *.
  - by injection H as ->.
  - destruct s as [|b s]; [done|].
    destruct (Ascii.eqb a b) eqn:Hab; [|done].
    apply Ascii.eqb_eq in Hab as ->. by rewrite (IH _ H).
Qed.

Lemma matchLit_append lit s r x :
  matchLit lit s = Some r → matchLit lit (s +:+ x) = Some (r +:+ x).
Proof.
  revert s. induction lit as [|a lit IH]; intros s H; simpl in *.
  - by injection H as ->.
  - destruct s as [|b s]; [done|]. simpl.
    destruct (Ascii.eqb a b); [by apply IH|done].
Qed.

Lemma matchHex_append n s r x :
  matchHex n s = Some r → matchHex n (s +:+ x) = Some (r +:+ x).
Proof.
  revert s. induction n as [|n IH]; intros s H; simpl in *.
  - by injection H as ->.
  - destruct s as [|c s]; [done|]. simpl.
    destruct (isHexDigit c); [by apply IH|done].
Qed.

Lemma matchHex_length n s r :
  matchHex n s = Some r → String.length s = n + String.length r.
Proof.
  revert s. induction n as [|n IH]; intros s H; simpl in *.
  - by injection H as ->.
  - destruct s as [|c s]; [done|]. simpl.
    destruct (isHexDigit c); [|done]. by rewrite (IH _ H).
Qed.

Lemma string_length_app (s1 s2 : string) :
  String.length (s1 +:+ s2) = String.length s1 + String.length s2.
Proof. induction s1 as [|c s1 IH]; simpl; [done|]. by rewrite IH. Qed.

Lemma matchItems_append items s x :
  matchItems items s = true → matchItems items (s +:+ x) = true.
Proof.
  revert s. induction items as [|[l|n] rest IH]; intros s H; simpl in *;
    [done| |].
  - destruct (matchLit l s) as [r|] eqn:Hl; [|done].
    rewrite (matchLit_append _ _ _ x Hl). by apply IH.
  - destruct (matchHex n s) as [r|] eqn:Hn; [|done].
    rewrite (matchHex_append _ _ _ x Hn). by apply IH.
Qed.

Lemma matchItems_length items s :
  matchItems items s = true → (patternLength items ≤ String.length s)%nat.
Proof.
  revert s. induction items as [|[l|n] rest IH]; intros s H; simpl in *;
    [lia| |].
  - destruct (matchLit l s) as [r|] eqn:Hl; [|done].
    apply matchLit_spec in Hl as ->. rewrite string_length_app.
    specialize (IH _ H). lia.
  - destruct (matchHex n s) as [r|] eqn:Hn; [|done].
    apply matchHex_length in Hn as ->. specialize (IH _ H). lia.
Qed.

Lemma prefix_app (l r : string) : String.prefix l (l +:+ r) = true.
Proof.
  induction l as [|a l IH]; simpl; [by destruct r|].
  by destruct (Ascii.ascii_dec a a).
Qed.

Lemma matchItems_starts_with l rest s :
  matchItems (Lit l :: rest) s = true → HasPrefix s l = true.
Proof.
  simpl. destruct (matchLit l s) as [r|] eqn:Hl; [|done]. intros _.
  apply matchLit_spec in Hl as ->. apply prefix_app.
Qed.

(** X4: the pattern of managed security-group names is anchored at the
    start and open at the end: a matching name begins with [lb-sg-], has at
    least 42 characters, and still matches with any suffix appended. *)
Theorem cloudProviderSGNameMatch_prefix_only
    (name : string) (Hmatch : cloudProviderSGNameMatch name = true) :
  HasPrefix name "lb-sg-" = true
  ∧ (42 ≤ String.length name)%nat
  ∧ ∀ suffix, cloudProviderSGNameMatch (name +:+ suffix) = true.
Proof.
  split; [|split].
  - exact (matchItems_starts_with "lb-sg-" _ name Hmatch).
  - apply matchItems_length in Hmatch. exact Hmatch.
  - intros suffix. by apply matchItems_append.
Qed.

Lemma cloudProviderSGNameMatch_prefix_only_witness :
  HasPrefix (sg.Name lbGroup) "lb-sg-" = true
  ∧ (42 ≤ String.length (sg.Name lbGroup))%nat
  ∧ ∀ suffix, cloudProviderSGNameMatch (sg.Name lbGroup +:+ suffix) = true.
Proof.
  apply (cloudProviderSGNameMatch_prefix_only (sg.Name lbGroup)).
  vm_compute. reflexivity.
Defined.

(** ** The deletion tasks as a whole *)

Section TaskResults.

Variable cloud : Cloud.

Lemma deletePorts_no_error listOpts t :
  snd (fst (deletePorts cloud listOpts t)) = None.
Proof.
  unfold deletePorts, bind, call, ret. simpl.
  destruct (errOf _); [done|].
  destruct (cloud _ (PortsList listOpts)); try done.
  destruct (getFIPsByPort cloud _) as [fipByPort t1].
  destruct (getSGsByID cloud t1) as [sgByID t2].
  by destruct (deletePortsWorker cloud fipByPort l sgByID 0 t2).
Qed.

(** The number a delete loop returns never exceeds the number of resources
    it was given, and reaches it exactly when every delete call was answered
    without error or with not-found. *)
Lemma deleteServers_loop_count filteredServers n t :
  (fst (deleteServers_loop cloud filteredServers n t)
     ≤ n + length filteredServers)%nat
  ∧ (fst (deleteServers_loop cloud filteredServers n t)
       = n + length filteredServers ↔
     answeredOrGone cloud t (map (λ s, ServersDelete (ID s)) filteredServers)
       = true)
  ∧ snd (deleteServers_loop cloud filteredServers n t)
      = t ++ map (λ s, ServersDelete (ID s)) filteredServers.
Proof.
  revert n t. induction filteredServers as [|s rest IH]; intros n t; simpl.
  - rewrite app_nil_r. split; [lia|]. split; [|done]. split; [done|lia].
  - unfold bind, call. simpl.
    set (c := ServersDelete (ID s)).
    destruct (IH n (t ++ [c])) as (Hle0 & Hiff0 & Htr0).
    destruct (IH (S n) (t ++ [c])) as (Hle1 & Hiff1 & Htr1).
    rewrite <- app_assoc in Htr0, Htr1. simpl in Htr0, Htr1.
    destruct (errOf (cloud t c)) as [err|].
    + destruct (ResponseCodeIs err StatusNotFound); simpl.
      * split; [lia|]. split; [|done]. rewrite <- Hiff1. lia.
      * split; [lia|]. split; [|done]. split; [lia|done].
    + simpl. split; [lia|]. split; [|done]. rewrite <- Hiff1. lia.
Qed.

End TaskResults.

(** X5: the per-kind deletion tasks never return a non-nil error: every
    failure of a provider call ends in [(false, nil)] or is skipped, so
    these tasks can only succeed or be retried. *)
Theorem deletion_tasks_never_return_errors :
  ∀ (cloud : Cloud) (ToLower : string → string)
    (filter : gmap string string) (listOpts : ports.ListOpts) (t : Trace),
    snd (fst (deleteServers cloud filter t)) = None
    ∧ snd (fst (deleteServerGroups cloud ToLower filter t)) = None
    ∧ snd (fst (deleteVolumes cloud ToLower filter t)) = None
    ∧ snd (fst (deletePorts cloud listOpts t)) = None
    ∧ snd (fst (deleteLoadBalancers cloud filter t)) = None
    ∧ snd (fst (deleteNetworks cloud filter t)) = None.
Proof.
  intros cloud ToLower filter listOpts t. repeat split.
  - unfold deleteServers, bind, call, ret. simpl.
    destruct (errOf _); [done|]. destruct (cloud _ ServersList); try done.
    by destruct (deleteServers_loop _ _ _ _).
  - unfold deleteServerGroups, bind, call, ret. simpl.
    destruct (errOf _); [done|].
    destruct (cloud _ ServerGroupsList); try done.
    by destruct (deleteServerGroups_loop _ _ _ _).
  - unfold deleteVolumes, bind, call, ret. simpl.
    destruct (errOf _); [done|]. destruct (cloud _ VolumesList); try done.
    by destruct (deleteVolumes_loop _ _ _ _).
  - apply deletePorts_no_error.
  - unfold deleteLoadBalancers, bind, call, ret. simpl.
    destruct (errOf _) as [err|]; [by destruct (IsEndpointNotFound err)|].
    destruct (cloud _ (LoadBalancersList "")); try done.
    by destruct (deleteLoadBalancers_loop _ _ _ _).
  - unfold deleteNetworks, bind, call, ret. simpl.
    destruct (errOf _); [done|].
    destruct (cloud _ (NetworksList _)); try done.
    by destruct (deleteNetworks_loop _ _ _ _).
Qed.

(** X6: [deletePortsByFilter] and [deletePortsByNetwork] add nothing to
    [deletePorts]: their error branch is never taken, so each behaves
    exactly as [deletePorts] with the list options it builds. *)
Theorem deletePorts_wrappers_are_transparent :
  ∀ (cloud : Cloud) (filter : gmap string string) (networkID : string)
    (t : Trace),
    deletePortsByFilter cloud filter t =
      deletePorts cloud (ports.mkOpts "" "" (Join (filterTags filter) ",")) t
    ∧ deletePortsByNetwork cloud networkID t =
        deletePorts cloud (ports.mkOpts networkID "" "") t.
Proof.
  intros cloud filter networkID t.
  unfold deletePortsByFilter, deletePortsByNetwork, bind. split.
  - pose proof (deletePorts_no_error cloud
                  (ports.mkOpts "" "" (Join (filterTags filter) ",")) t) as H.
    destruct (deletePorts cloud _ t) as [[b e] t']. simpl in *. by subst e.
  - pose proof (deletePorts_no_error cloud
                  (ports.mkOpts networkID "" "") t) as H.
    destruct (deletePorts cloud _ t) as [[b e] t']. simpl in *. by subst e.
Qed.

(** X7: once the compute client is built and the servers are listed,
    [deleteServers] sends one delete call per server whose metadata match the
    filter, in the order of the list, and no other call; it returns
    [(true, nil)] exactly when every one of these calls was answered without
    error or with not-found. *)
Theorem deleteServers_deletes_the_matching_servers
    (cloud : Cloud) (filter : gmap string string) (t : Trace)
    (allServers : list servers.Server)
    (Hconn : errOf (cloud t (NewServiceClient "compute")) = None)
    (Hlist : cloud (t ++ [NewServiceClient "compute"]) ServersList
             = Servers allServers) :
  let listed := t ++ [NewServiceClient "compute"; ServersList] in
  let deletes := map ServersDelete (filteredServerIDs allServers filter) in
  deleteServers cloud filter t =
    ((answeredOrGone cloud listed deletes, None), listed ++ deletes).
Proof.
  intros listed deletes.
  assert (Hl : listed = (t ++ [NewServiceClient "compute"]) ++ [ServersList])
    by (unfold listed; by rewrite <- app_assoc).
  unfold deleteServers, bind, call. simpl. rewrite Hconn, Hlist, <- Hl.
  set (objs := filterObjects _ filter).
  destruct (deleteServers_loop_count cloud objs 0 listed)
    as (Hle & Hiff & Htr).
  assert (Hd : deletes = map (λ s, ServersDelete (ID s)) objs).
  { unfold deletes, filteredServerIDs. fold objs. by rewrite map_map. }
  rewrite <- Hd in Hiff, Htr.
  destruct (deleteServers_loop cloud objs 0 listed) as [n t']. simpl in *.
  subst t'. unfold ret. f_equal. f_equal.
  apply eq_true_iff_eq. rewrite Nat.eqb_eq. done.
Qed.

Lemma deleteServers_deletes_the_matching_servers_witness :
  deleteServers (oneGroupCloud (Failed (ErrUnexpectedResponseCode 404)))
    abcFilter []
  = ((true, None),
     [NewServiceClient "compute"; ServersList; ServersDelete "s1"]).
Proof.
  exact (deleteServers_deletes_the_matching_servers
           (oneGroupCloud (Failed (ErrUnexpectedResponseCode 404)))
           abcFilter []
           [servers.mk "s1" {[ "openshiftClusterID" := "abc" ]}]
           eq_refl eq_refl).
Defined.

(** ** Volumes selected twice *)

Lemma filter_length_app {A} (f : A → bool) (l1 l2 : list A) :
  length (List.filter f (l1 ++ l2)) =
  length (List.filter f l1) + length (List.filter f l2).
Proof. by rewrite List.filter_app, length_app. Qed.

(** X8: a volume that has the cluster ID both as name prefix and in its CSI
    metadata is appended twice to the candidates of [deleteVolumes], so it
    gets two delete calls in one pass. *)
Theorem deleteVolumes_selects_csi_volume_twice
    (allVolumes : list volumes.Volume) (clusterID : string)
    (volume : volumes.Volume)
    (Hin : volume ∈ allVolumes)
    (Hname : HasPrefix (volumes.Name volume) clusterID = true)
    (Hmeta : volumes.Metadata volume !! cinderCSIClusterIDKey
             = Some clusterID) :
  (2 ≤ length (List.filter
                 (λ volumeID, bool_decide (volumeID = volumes.ID volume))
                 (volumeIDs allVolumes clusterID)))%nat
  ∧ ∀ (cloud : Cloud) n t,
      snd (deleteVolumes_loop cloud (volumeIDs allVolumes clusterID) n t)
      = t ++ map VolumesDelete (volumeIDs allVolumes clusterID).
Proof.
  split; [|intros; apply deleteVolumes_loop_trace].
  induction allVolumes as [|v rest IH]; [inversion Hin|].
  simpl. rewrite !filter_length_app.
  apply elem_of_cons in Hin as [<-|Hin].
  - rewrite Hname, Hmeta. simpl.
    destruct (decide (clusterID = clusterID)); [|done]. simpl.
    rewrite bool_decide_eq_true_2 by done. simpl. lia.
  - specialize (IH Hin). lia.
Qed.

Lemma deleteVolumes_selects_csi_volume_twice_witness :
  (2 ≤ length (List.filter (λ volumeID, bool_decide (volumeID = "v1"))
                 (volumeIDs [csiVolume] "abc")))%nat.
Proof.
  destruct (deleteVolumes_selects_csi_volume_twice [csiVolume] "abc"
              csiVolume) as [H _].
  - by left.
  - reflexivity.
  - reflexivity.
  - exact H.
Defined.

(** The whole task on the project with the single CSI volume. *)
Example deleteVolumes_run :
  deleteVolumes volumesCloud asciiToLower abcFilter []
  = ((true, None),
     [NewServiceClient "volume"; VolumesList;
      VolumesDelete "v1"; VolumesDelete "v1"]).
Proof. vm_compute. reflexivity. Qed.

(** ** The prefetched lookup maps *)

Lemma foldl_insert_last {A} (key : A → string) (l : list A)
    (m0 : gmap string A) (k : string) :
  foldl (λ m x, <[key x := x]> m) m0 l !! k =
  match last (filter (λ x, key x = k) l) with
  | Some x => Some x
  | None => m0 !! k
  end.
Proof.
  revert m0. induction l as [|x l IH]; intros m0; simpl; [done|].
  rewrite IH. destruct (decide (key x = k)) as [Heq|Hne].
  - rewrite filter_cons_True by done. rewrite last_cons.
    destruct (last (filter _ l)); [done|]. subst k. apply lookup_insert_eq.
  - rewrite filter_cons_False by done.
    destruct (last (filter _ l)); [done|]. by apply lookup_insert_ne.
Qed.

(** X9: the lookup maps built by [getFIPsByPort] and [getSGsByID] hold, for
    each key, the last listed element with that port ID (resp. group ID):
    when several floating IPs are bound to one port only the last one is
    kept.  When the list call fails the map is empty and no error is
    reported. *)
Theorem lookup_maps_keep_last_listed :
  ∀ (cloud : Cloud) (t : Trace) (key : string),
    fst (getFIPsByPort cloud t) !! key =
      match cloud t (FloatingIPsList (floatingips.mkOpts "")) with
      | FloatingIPs allFIPs =>
          last (filter (λ fip, floatingips.PortID fip = key) allFIPs)
      | _ => None
      end
    ∧ fst (getSGsByID cloud t) !! key =
        match cloud t SecGroupsList with
        | SecGroups allSGs => last (filter (λ group, sg.ID group = key) allSGs)
        | _ => None
        end.
Proof.
  intros cloud t key. unfold getFIPsByPort, getSGsByID, bind, call. simpl.
  split.
  - destruct (cloud t (FloatingIPsList _)); simpl; try apply lookup_empty.
    rewrite (foldl_insert_last floatingips.PortID).
    destruct (last _); [done|apply lookup_empty].
  - destruct (cloud t SecGroupsList); simpl; try apply lookup_empty.
    rewrite (foldl_insert_last sg.ID).
    destruct (last _); [done|apply lookup_empty].
Qed.

(** ** Ports that cannot be deleted *)

(** X10: a port whose floating IP cannot be dissociated (the update fails
    with an error other than not-found) is left alone in this pass: the
    worker makes the one floating-IP update call for it and no call on the
    port or on its security groups, and does not count it. *)
Theorem deletePortsWorker_skips_ports_with_stuck_fip
    (cloud : Cloud) (fipByPort : gmap string floatingips.FloatingIP)
    (portsChannel : list ports.Port) (sgByID : gmap string sg.SecGroup)
    (localDeleted : nat) (t : Trace)
    (Hfip : ∀ port, port ∈ portsChannel →
              is_Some (fipByPort !! ports.ID port))
    (Hfail : ∀ t' id, ∃ err,
               cloud t' (FloatingIPsUpdate id) = Failed err
               ∧ ResponseCodeIs err StatusNotFound = false) :
  ∃ calls,
    deletePortsWorker cloud fipByPort portsChannel sgByID localDeleted t
      = ((sgByID, localDeleted), t ++ calls)
    ∧ length calls = length portsChannel
    ∧ Forall (λ c, ∃ id, c = FloatingIPsUpdate id) calls.
Proof.
  revert t. induction portsChannel as [|port rest IH]; intros t.
  - exists []. simpl. by rewrite app_nil_r.
  - destruct (Hfip port) as [fip Hlook]; [by left|].
    destruct (Hfail t (floatingips.ID fip)) as (err & Herr & H404).
    destruct (IH (λ p Hp, Hfip p (list_elem_of_further _ _ _ Hp))
                 (t ++ [FloatingIPsUpdate (floatingips.ID fip)]))
      as (calls & Hrun & Hlen & Hall).
    exists (FloatingIPsUpdate (floatingips.ID fip) :: calls).
    simpl. unfold bind at 1. unfold deletePort. rewrite Hlook.
    unfold bind, call. simpl. rewrite Herr. simpl. rewrite H404. simpl.
    rewrite Hrun, <- app_assoc. split; [done|]. split; [by rewrite Hlen|].
    constructor; [by eexists|done].
Qed.

Lemma deletePortsWorker_skips_ports_with_stuck_fip_witness :
  ∃ calls,
    deletePortsWorker twoFIPsCloud {[ "p1" := floatingips.mk "fip2" "p1" ]}
      [ports.mk "p1" "" [] []] ∅ 0 []
    = ((∅, 0), [] ++ calls)
    ∧ length calls = 1
    ∧ Forall (λ c, ∃ id, c = FloatingIPsUpdate id) calls.
Proof.
  apply (deletePortsWorker_skips_ports_with_stuck_fip twoFIPsCloud
           {[ "p1" := floatingips.mk "fip2" "p1" ]}
           [ports.mk "p1" "" [] []] ∅ 0 []).
  - intros port Hin. apply list_elem_of_singleton in Hin as ->.
    simpl. rewrite lookup_singleton_eq. by eexists.
  - intros t' id. exists (ErrUnexpectedResponseCode 500). by split.
Defined.





(** ** Networks that cannot be deleted at once *)

Section NetworksResult.

Variable cloud : Cloud.

Lemma deleteNetworks_loop_cons net rest n t :
  deleteNetworks_loop cloud (net :: rest) n t =
  let t1 := t ++ [NetworksDelete (networks.ID net)] in
  match errOf (cloud t (NetworksDelete (networks.ID net))) with
  | Some err =>
      if negb (ResponseCodeIs err StatusNotFound) then
        match deleteLeftoverLoadBalancers cloud (networks.ID net) t1 with
        | (Some _, t2) => deleteNetworks_loop cloud rest n t2
        | (None, t2) =>
            deleteNetworks_loop cloud rest n
              (snd (deletePortsByNetwork cloud (networks.ID net) t2))
        end
      else deleteNetworks_loop cloud rest (S n) t1
  | None => deleteNetworks_loop cloud rest (S n) t1
  end.
Proof.
  simpl. unfold bind at 1, call at 1. simpl.
  destruct (errOf _) as [err|]; [|done].
  destruct (ResponseCodeIs err StatusNotFound); simpl; [done|].
  unfold bind at 1.
  destruct (deleteLeftoverLoadBalancers cloud _ _) as [[e|] t2]; [done|].
  unfold bind. by destruct (deletePortsByNetwork cloud _ t2).
Qed.

Lemma deleteNetworks_loop_count allNetworks n t :
  (fst (deleteNetworks_loop cloud allNetworks n t) ≤ n + length allNetworks)%nat
  ∧ ∀ network, network ∈ allNetworks →
      (∀ t', ∃ err, cloud t' (NetworksDelete (networks.ID network))
                      = Failed err
                    ∧ ResponseCodeIs err StatusNotFound = false) →
      (fst (deleteNetworks_loop cloud allNetworks n t)
         < n + length allNetworks)%nat.
Proof.
  revert n t. induction allNetworks as [|net rest IH]; intros n t.
  - simpl. split; [lia|]. intros network Hin. inversion Hin.
  - rewrite deleteNetworks_loop_cons. cbv zeta.
    set (t1 := t ++ [NetworksDelete (networks.ID net)]).
    change (length (net :: rest)) with (S (length rest)).
    assert (Hnext : ∀ t',
              (fst (deleteNetworks_loop cloud rest (S n) t')
                 ≤ n + S (length rest))%nat
              ∧ ∀ network, network ∈ rest →
                  (∀ t'', ∃ err,
                     cloud t'' (NetworksDelete (networks.ID network))
                       = Failed err
                     ∧ ResponseCodeIs err StatusNotFound = false) →
                  (fst (deleteNetworks_loop cloud rest (S n) t')
                     < n + S (length rest))%nat).
    { intros t'. destruct (IH (S n) t') as [Hle Hlt]. split; [lia|].
      intros network Hin Hfail. specialize (Hlt network Hin Hfail). lia. }
    assert (Hskip : ∀ t', (fst (deleteNetworks_loop cloud rest n t')
                             < n + S (length rest))%nat).
    { intros t'. destruct (IH n t') as [Hle _]. lia. }
    destruct (errOf (cloud t (NetworksDelete (networks.ID net))))
      as [err|] eqn:Herr.
    + destruct (ResponseCodeIs err StatusNotFound) eqn:H404; simpl.
      * destruct (Hnext t1) as [Hle Hlt]. split; [done|].
        intros network Hin Hfail. apply elem_of_cons in Hin as [->|Hin].
        -- destruct (Hfail t) as (err' & Herr' & H404').
           rewrite Herr' in Herr. simpl in Herr. injection Herr as ->.
           congruence.
        -- by apply (Hlt network).
      * destruct (deleteLeftoverLoadBalancers cloud (networks.ID net) t1)
          as [[e|] t2].
        -- split; [specialize (Hskip t2); lia|]. intros. apply Hskip.
        -- split; [|intros; apply Hskip].
           specialize (Hskip (snd (deletePortsByNetwork cloud
                                     (networks.ID net) t2))). lia.
    + destruct (Hnext t1) as [Hle Hlt]. split; [done|].
      intros network Hin Hfail. apply elem_of_cons in Hin as [->|Hin].
      * destruct (Hfail t) as (err' & Herr' & _). rewrite Herr' in Herr.
        discriminate.
      * by apply (Hlt network).
Qed.

End NetworksResult.

(** X12: a network whose delete call fails with an error other than
    not-found is never counted in the pass that cleans up its load
    balancers and ports: [deleteNetworks] then returns [(false, nil)], so
    such a network takes at least one more pass. *)
Theorem deleteNetworks_not_done_when_a_delete_fails
    (cloud : Cloud) (filter : gmap string string) (t : Trace)
    (allNetworks : list networks.Network) (network : networks.Network)
    (Hconn : errOf (cloud t (NewServiceClient "network")) = None)
    (Hlist : cloud (t ++ [NewServiceClient "network"])
               (NetworksList (networks.mkOpts "" (Join (filterTags filter) ",")))
             = Networks allNetworks)
    (Hin : network ∈ allNetworks)
    (Hfail : ∀ t', ∃ err,
               cloud t' (NetworksDelete (networks.ID network)) = Failed err
               ∧ ResponseCodeIs err StatusNotFound = false) :
  fst (deleteNetworks cloud filter t) = (false, None).
Proof.
  unfold deleteNetworks, bind, call. simpl. rewrite Hconn, Hlist.
  destruct (deleteNetworks_loop_count cloud allNetworks 0
              ((t ++ [NewServiceClient "network"]) ++
               [NetworksList
                  (networks.mkOpts "" (Join (filterTags filter) ","))]))
    as [_ Hlt].
  specialize (Hlt network Hin Hfail).
  destruct (deleteNetworks_loop cloud allNetworks 0 _) as [n t']. simpl in *.
  destruct (Nat.eqb_spec n (length allNetworks)); [lia|done].
Qed.

Lemma deleteNetworks_not_done_when_a_delete_fails_witness :
  fst (deleteNetworks (leftoverCloud [lbA; lbB]) abcFilter [])
  = (false, None).
Proof.
  apply (deleteNetworks_not_done_when_a_delete_fails
           (leftoverCloud [lbA; lbB]) abcFilter [] [net1] net1).
  - reflexivity.
  - reflexivity.
  - by left.
  - intros t'. exists (ErrUnexpectedResponseCode 409). by split.
Defined.

(** ** Load balancers *)

Section LoadBalancersProofs.

Variable cloud : Cloud.

Lemma deleteLoadBalancers_loop_count toRemove n t :
  (fst (deleteLoadBalancers_loop cloud toRemove n t)
     ≤ n + length toRemove)%nat
  ∧ (fst (deleteLoadBalancers_loop cloud toRemove n t)
       = n + length toRemove ↔
     answeredOrGone cloud t
       (map (λ lb, LoadBalancersDelete (loadbalancers.ID lb) true) toRemove)
       = true)
  ∧ snd (deleteLoadBalancers_loop cloud toRemove n t)
      = t ++ map (λ lb, LoadBalancersDelete (loadbalancers.ID lb) true)
               toRemove.
Proof.
  revert n t. induction toRemove as [|lb rest IH]; intros n t; simpl.
  - rewrite app_nil_r. split; [lia|]. split; [|done]. split; [done|lia].
  - unfold bind, call. simpl.
    set (c := LoadBalancersDelete (loadbalancers.ID lb) true).
    destruct (IH n (t ++ [c])) as (Hle0 & Hiff0 & Htr0).
    destruct (IH (S n) (t ++ [c])) as (Hle1 & Hiff1 & Htr1).
    rewrite <- app_assoc in Htr0, Htr1. simpl in Htr0, Htr1.
    destruct (errOf (cloud t c)) as [err|].
    + destruct (ResponseCodeIs err StatusNotFound); simpl.
      * split; [lia|]. split; [|done]. rewrite <- Hiff1. lia.
      * split; [lia|]. split; [|done]. split; [lia|done].
    + simpl. split; [lia|]. split; [|done]. rewrite <- Hiff1. lia.
Qed.

Lemma deleteLoadBalancers_run filter t all :
  errOf (cloud t (NewServiceClient "load-balancer")) = None →
  cloud (t ++ [NewServiceClient "load-balancer"]) (LoadBalancersList "")
    = LoadBalancers all →
  let listed :=
    t ++ [NewServiceClient "load-balancer"; LoadBalancersList ""] in
  let deletes :=
    map (λ lb, LoadBalancersDelete (loadbalancers.ID lb) true)
      (allLoadBalancersToRemove all (index filter "openshiftClusterID")) in
  deleteLoadBalancers cloud filter t =
    ((answeredOrGone cloud listed deletes, None), listed ++ deletes).
Proof.
  intros Hconn Hlist listed deletes.
  assert (Hl : listed = (t ++ [NewServiceClient "load-balancer"]) ++
                        [LoadBalancersList ""])
    by (unfold listed; by rewrite <- app_assoc).
  unfold deleteLoadBalancers, bind, call. simpl.
  rewrite Hconn, Hlist, <- Hl.
  set (toRemove := allLoadBalancersToRemove all _).
  destruct (deleteLoadBalancers_loop_count toRemove 0 listed)
    as (Hle & Hiff & Htr).
  fold deletes in Hiff, Htr.
  destruct (deleteLoadBalancers_loop cloud toRemove 0 listed) as [n t'].
  simpl in *. subst t'. unfold ret. f_equal. f_equal.
  apply eq_true_iff_eq. rewrite Nat.eqb_eq. done.
Qed.

End LoadBalancersProofs.

Lemma Contains_empty s : Contains s "" = true.
Proof. by destruct s. Qed.

(** X13: once the load-balancer client is built and the load balancers of
    the project are listed, [deleteLoadBalancers] sends one cascading delete
    call per load balancer whose description contains the value of the
    filter's [openshiftClusterID] key, in list order, and no other call; it
    returns [(true, nil)] exactly when each of these calls was answered
    without error or with not-found. *)
Theorem deleteLoadBalancers_deletes_by_description
    (cloud : Cloud) (filter : gmap string string) (t : Trace)
    (all : list loadbalancers.LoadBalancer)
    (Hconn : errOf (cloud t (NewServiceClient "load-balancer")) = None)
    (Hlist : cloud (t ++ [NewServiceClient "load-balancer"])
               (LoadBalancersList "") = LoadBalancers all) :
  let listed :=
    t ++ [NewServiceClient "load-balancer"; LoadBalancersList ""] in
  let deletes :=
    map (λ lb, LoadBalancersDelete (loadbalancers.ID lb) true)
      (List.filter
         (λ lb, Contains (loadbalancers.Description lb)
                  (index filter "openshiftClusterID")) all) in
  deleteLoadBalancers cloud filter t =
    ((answeredOrGone cloud listed deletes, None), listed ++ deletes).
Proof. by apply deleteLoadBalancers_run. Qed.

Lemma deleteLoadBalancers_deletes_by_description_witness :
  deleteLoadBalancers lbsCloud abcFilter [] =
    ((true, None),
     [NewServiceClient "load-balancer"; LoadBalancersList "";
      LoadBalancersDelete "lbA" true]).
Proof.
  exact (deleteLoadBalancers_deletes_by_description lbsCloud abcFilter []
           [lbA; lbUser] eq_refl eq_refl).
Defined.

Lemma allLoadBalancersToRemove_empty all :
  allLoadBalancersToRemove all "" = all.
Proof.
  unfold allLoadBalancersToRemove.
  induction all as [|lb rest IH]; [done|]. simpl.
  by rewrite Contains_empty, IH.
Qed.

(** X14: the cluster ID of [deleteLoadBalancers] is read at the exact key
    [openshiftClusterID].  With a filter that has no such key (one that
    spells it in another case, for instance) the cluster ID is empty, every
    description contains it, and every load balancer of the project gets a
    delete call. *)
Theorem deleteLoadBalancers_without_exact_key_deletes_all
    (cloud : Cloud) (filter : gmap string string) (t : Trace)
    (all : list loadbalancers.LoadBalancer)
    (Hkey : filter !! "openshiftClusterID" = None)
    (Hconn : errOf (cloud t (NewServiceClient "load-balancer")) = None)
    (Hlist : cloud (t ++ [NewServiceClient "load-balancer"])
               (LoadBalancersList "") = LoadBalancers all) :
  snd (deleteLoadBalancers cloud filter t) =
    t ++ [NewServiceClient "load-balancer"; LoadBalancersList ""]
      ++ map (λ lb, LoadBalancersDelete (loadbalancers.ID lb) true) all.
Proof.
  rewrite (deleteLoadBalancers_run cloud filter t all Hconn Hlist). simpl.
  unfold index. rewrite Hkey. simpl.
  by rewrite allLoadBalancersToRemove_empty, <- app_assoc.
Qed.

Lemma deleteLoadBalancers_without_exact_key_deletes_all_witness :
  snd (deleteLoadBalancers lbsCloud lowerKeyFilter []) =
    [NewServiceClient "load-balancer"; LoadBalancersList "";
     LoadBalancersDelete "lbA" true; LoadBalancersDelete "lbU" true].
Proof.
  exact (deleteLoadBalancers_without_exact_key_deletes_all lbsCloud
           lowerKeyFilter [] [lbA; lbUser] eq_refl eq_refl eq_refl).
Defined.

(** ** Bulk object deletion: batches and termination *)

Section BulkDeleteMore.

Variable cloud : Cloud.

Lemma bulkDeleteLoop_suffixes fuel container page k errCh t :
  ∃ calls,
    snd (bulkDeleteLoop cloud fuel container (drop k page) errCh t)
      = t ++ calls
    ∧ Forall (λ c, ∃ k', c = ObjectsBulkDelete container (drop k' page)
                         ∧ drop k' page ≠ []) calls.
Proof.
  revert k errCh t. induction fuel as [|fuel IH]; intros k errCh t; simpl.
  - exists []. by rewrite app_nil_r.
  - destruct (drop k page) as [|o rest] eqn:Hdrop; simpl.
    + exists []. by rewrite app_nil_r.
    + unfold bind, call.
      set (c := ObjectsBulkDelete container (o :: rest)).
      assert (Hc : ∃ k', c = ObjectsBulkDelete container (drop k' page)
                         ∧ drop k' page ≠ []).
      { exists k. by rewrite Hdrop. }
      assert (Hone : ∀ t', t' = t ++ [c] →
                ∃ calls, t' = t ++ calls
                  ∧ Forall (λ c, ∃ k', c = ObjectsBulkDelete container
                                             (drop k' page)
                                       ∧ drop k' page ≠ []) calls).
      { intros t' ->. exists [c]. split; [done|]. by repeat constructor. }
      destruct (cloud t c) as [| | | | | | | | | | | |resp]; simpl;
        try (by apply Hone).
      destruct (_ || _); simpl; [by apply Hone|].
      set (n := Z.to_nat (objects.NumberDeleted resp +
                          objects.NumberNotFound resp)).
      destruct (IH (k + n)
                  (errCh ++ map objectError (objects.Errors resp))
                  (t ++ [c])) as (calls & Heq & Hall).
      rewrite <- drop_drop, Hdrop in Heq.
      exists (c :: calls). rewrite Heq, <- app_assoc.
      split; [done|]. by constructor.
Qed.

Lemma bulkDeleteLoop_terminates container fuel objectsOnPage errCh t :
  (∀ t' batch, batch ≠ [] →
     ∃ resp, cloud t' (ObjectsBulkDelete container batch) = BulkDeleted resp
             ∧ (1 ≤ objects.NumberDeleted resp + objects.NumberNotFound resp
                  ≤ Z.of_nat (length batch))%Z) →
  (length objectsOnPage < fuel)%nat →
  ∃ calls,
    snd (bulkDeleteLoop cloud fuel container objectsOnPage errCh t)
      = t ++ calls
    ∧ fst (fst (bulkDeleteLoop cloud fuel container objectsOnPage errCh t))
      = BatchEmpty
    ∧ (length calls ≤ length objectsOnPage)%nat.
Proof.
  intros Hprogress. revert objectsOnPage errCh t.
  induction fuel as [|fuel IH]; intros objs errCh t Hfuel; [lia|].
  destruct objs as [|o rest].
  - exists []. simpl. by rewrite app_nil_r.
  - destruct (Hprogress t (o :: rest)) as (resp & Hreply & Hn); [done|].
    destruct (bulkDeleteLoop_shrinks cloud fuel container (o :: rest) errCh t
                resp) as [Hstep Hlen]; [done|done|lia|].
    rewrite Hstep.
    set (n := Z.to_nat (objects.NumberDeleted resp +
                        objects.NumberNotFound resp)) in *.
    assert (Hpos : (1 ≤ n)%nat) by (unfold n; lia).
    destruct (IH (drop n (o :: rest))
                (errCh ++ map objectError (objects.Errors resp))
                (t ++ [ObjectsBulkDelete container (o :: rest)]))
      as (calls & Htr & Hend & Hcount).
    { rewrite Hlen. simpl in *. lia. }
    exists (ObjectsBulkDelete container (o :: rest) :: calls).
    rewrite Htr, <- app_assoc. split; [done|]. split; [done|].
    rewrite Hlen in Hcount. simpl in *. lia.
Qed.

End BulkDeleteMore.

(** X15: every bulk-delete call of the queued unit is for the same container
    and for a non-empty tail of the page of object names it was given: the
    unit never names an object outside its page and never sends an empty
    batch. *)
Theorem bulkDeleteLoop_sends_tails_of_the_page :
  ∀ (cloud : Cloud) (fuel : nat) (container : string) (page : list string)
    (errCh : list error) (t : Trace),
  ∃ calls,
    snd (bulkDeleteLoop cloud fuel container page errCh t) = t ++ calls
    ∧ Forall (λ c, ∃ k, c = ObjectsBulkDelete container (drop k page)
                        ∧ drop k page ≠ []) calls.
Proof.
  intros cloud fuel container page errCh t.
  exact (bulkDeleteLoop_suffixes cloud fuel container page 0 errCh t).
Qed.

(** X16: when every bulk-delete call is answered without error and reports
    at least one and at most all objects of its batch as deleted or not
    found, the unit ends with an empty batch after at most as many calls as
    the page has objects (whatever per-object errors the answers list). *)
Theorem bulkDeleteLoop_ends_when_the_store_makes_progress
    (cloud : Cloud) (container : string) (page : list string)
    (errCh : list error) (t : Trace) (fuel : nat)
    (Hprogress : ∀ t' batch, batch ≠ [] →
       ∃ resp, cloud t' (ObjectsBulkDelete container batch) = BulkDeleted resp
               ∧ (1 ≤ objects.NumberDeleted resp + objects.NumberNotFound resp
                    ≤ Z.of_nat (length batch))%Z)
    (Hfuel : (length page < fuel)%nat) :
  ∃ calls,
    snd (bulkDeleteLoop cloud fuel container page errCh t) = t ++ calls
    ∧ fst (fst (bulkDeleteLoop cloud fuel container page errCh t))
      = BatchEmpty
    ∧ (length calls ≤ length page)%nat.
Proof. by apply bulkDeleteLoop_terminates. Qed.

Lemma bulkDeleteLoop_ends_when_the_store_makes_progress_witness :
  ∃ calls,
    snd (bulkDeleteLoop oneByOneCloud 4 "c" ["a"; "b"; "c"] [] []) = [] ++ calls
    ∧ fst (fst (bulkDeleteLoop oneByOneCloud 4 "c" ["a"; "b"; "c"] [] []))
      = BatchEmpty
    ∧ (length calls ≤ 3)%nat.
Proof.
  apply (bulkDeleteLoop_ends_when_the_store_makes_progress oneByOneCloud "c"
           ["a"; "b"; "c"] [] [] 4).
  - intros t' batch Hne. exists (objects.mk 1 0 []). split; [done|].
    destruct batch; [done|]. simpl. lia.
  - simpl. lia.
Defined.

(** ** The outcome of [Run] *)

Lemma moved_to_sending (funcs run snd fin : gset string) name :
  funcs ⊆ run ∪ snd ∪ fin →
  funcs ⊆ run ∖ {[name]} ∪ ({[name]} ∪ snd) ∪ fin.
Proof.
  intros Hall x Hx. apply Hall in Hx.
  destruct (decide (x = name)) as [->|Hne]; set_solver.
Qed.

Lemma moved_to_finished (funcs run snd fin : gset string) name :
  funcs ⊆ run ∪ snd ∪ fin →
  funcs ⊆ run ∪ snd ∖ {[name]} ∪ ({[name]} ∪ fin).
Proof.
  intros Hall x Hx. apply Hall in Hx.
  destruct (decide (x = name)) as [->|Hne]; set_solver.
Qed.

Lemma running_in_funcs (funcs run snd fin : gset string) name :
  run ∪ snd ∪ fin ⊆ funcs → name ∈ run → name ∈ funcs.
Proof. set_solver. Qed.

Lemma noFatal_snoc l e :
  noFatal l → (∀ name, e ≠ Fatal name) → noFatal (l ++ [e]).
Proof.
  intros Hl He name Hin. apply elem_of_app in Hin as [Hin|Hin].
  - by apply (Hl name).
  - apply list_elem_of_singleton in Hin. by apply (He name).
Qed.

Lemma noFatal_nil : noFatal [].
Proof. intros name. apply not_elem_of_nil. Qed.

Lemma runInv_idle funcs s :
  runInv funcs s → finished s = funcs → running s = ∅ ∧ sending s = ∅.
Proof.
  intros (Hsub & _ & Hdisj & _) Hfin. unfold launched in Hsub.
  rewrite Hfin in Hsub, Hdisj. split; apply leibniz_equiv; set_solver.
Qed.

Lemma empty_union3 (X Y Z : gset string) :
  X ∪ Y ∪ Z = ∅ → X = ∅ ∧ Y = ∅ ∧ Z = ∅.
Proof.
  intros H. apply empty_union_L in H as [H ->].
  by apply empty_union_L in H as [-> ->].
Qed.

Lemma exec_outcome funcs s a s' :
  runInv funcs s → outcomeFacts funcs s → exec funcs s a = Some s' →
  outcomeFacts funcs s'.
Proof.
  intros Hinv Hout Hexec.
  pose proof Hinv as (Hsub & Hrs & Hdisj & Hsig & Hwait & Hphase & Hsb & Hru).
  pose proof (runInv_idle funcs s Hinv) as Hidle.
  destruct s as [m run snd fin l]. unfold exec, outcomeFacts in *.
  unfold launched in *. simpl in *.
  destruct a as [[err|]|name| |name [err|]|name| |[err|]| |err];
    destruct m; simpl in Hexec; try discriminate.
  all: repeat case_decide; try discriminate.
  all: injection Hexec as <-.
  all: simpl in Hwait, Hphase, Hout.
  all: unfold setMain, launched, returnFacts; simpl; rewrite ?app_nil_r.
  all: try match goal with
    | H : ?name ∈ ?R, Hi : ?F = ?G → ?R = ∅ ∧ _ , Hw : ?F = ?G |- _ =>
        exfalso; destruct (Hi Hw) as [Hrun _]; rewrite Hrun in H;
        by apply not_elem_of_empty in H
    | H : ?name ∈ ?R, Ho : ?R = ∅ ∧ _ |- _ =>
        exfalso; destruct Ho as [Hrun _]; rewrite Hrun in H;
        by apply not_elem_of_empty in H
    | H : ?name ∈ ?R, Ho : ?R ∪ _ ∪ _ = ∅ ∧ _ |- _ =>
        exfalso; destruct Ho as [Hrun _];
        apply empty_union3 in Hrun as (Hrun & _ & _); rewrite Hrun in H;
        by apply not_elem_of_empty in H
    end.
  all: try (apply noFatal_snoc; [|done]).
  all: try match goal with
    | Ho : _ ∧ ?l = [] |- noFatal ?l =>
        destruct Ho as [_ ->]; apply noFatal_nil
    | Ho : _ ∧ noFatal ?l |- noFatal ?l => by destruct Ho
    | Ho : noFatal ?l ∧ _ |- noFatal ?l => by destruct Ho
    | |- noFatal _ => assumption
    end.
  - destruct Hout as [He ->]. apply empty_union3 in He as (-> & -> & ->).
    split; [done|]. split; [done|]. split; [apply noFatal_nil|].
    left. unfold launched. simpl. split; [|done]. by rewrite !union_empty_l_L.
  - by split.
  - exists l, name. split; [done|]. split; [done|].
    split; [by eapply running_in_funcs|]. by destruct Hphase.
  - exists l, name. destruct Hout as [_ Hno]. split; [done|].
    split; [done|]. split; [by eapply running_in_funcs|]. by destruct Hphase.
  - destruct Hout as [Hall Hno]. split; [by apply moved_to_sending|done].
  - destruct Hout as [Hall Hno]. split; [by apply moved_to_finished|].
    by apply noFatal_snoc.
  - destruct (Hidle Hwait) as [-> ->]. split; [done|]. split; [done|].
    split; [by apply noFatal_snoc|]. right. left. exists l, err.
    split; [done|]. split; [done|]. split; [|done]. by destruct Hphase.
  - split; [by apply noFatal_snoc|]. apply elem_of_app. left.
    by destruct Hphase as (_ & ? & _).
  - destruct (Hidle Hwait) as [-> ->]. destruct Hout as [Hno Hdone].
    split; [done|]. split; [done|]. split; [by apply noFatal_snoc|].
    right. right. by exists l.
Qed.

Lemma execAll_outcome funcs schedule s s' :
  runInv funcs s → outcomeFacts funcs s →
  execAll funcs s schedule = Some s' →
  runInv funcs s' ∧ outcomeFacts funcs s'.
Proof.
  revert s. induction schedule as [|a rest IH]; intros s Hinv Hout Hrun;
    simpl in Hrun.
  - by injection Hrun as <-.
  - destruct (exec funcs s a) as [s1|] eqn:Hexec; [|discriminate].
    apply (IH s1); [by eapply exec_inv|by eapply exec_outcome|done].
Qed.

Lemma outcomeFacts_initial funcs : outcomeFacts funcs initial.
Proof.
  unfold outcomeFacts, initial, launched. simpl. split; [|done].
  by rewrite !union_empty_l_L.
Qed.

Lemma Run_reachable schedule s :
  execAll deleteFuncs initial schedule = Some s →
  runInv deleteFuncs s ∧ outcomeFacts deleteFuncs s.
Proof.
  apply execAll_outcome; [apply runInv_initial|apply outcomeFacts_initial].
Qed.

Lemma Returned_stuck funcs s r a :
  main s = Returned r → running s = ∅ → exec funcs s a = None.
Proof.
  intros Hmain Hrun. unfold exec. rewrite Hmain, Hrun.
  destruct a as [[err|]|name| |name [err|]|name| |[err|]| |err]; try done.
  all: by rewrite decide_False by apply not_elem_of_empty.
Qed.


Lemma difference_empty_subseteq (X Y : gset string) : X ∖ Y = ∅ → X ⊆ Y.
Proof.
  intros Hempty x Hx. destruct (decide (x ∈ Y)) as [|Hno]; [done|].
  exfalso. apply (not_elem_of_empty (C:=gset string) x). rewrite <- Hempty.
  by apply elem_of_difference.
Qed.

Lemma sender_can_be_received funcs s i name :
  runInv funcs s → main s = Waiting i → name ∈ sending s →
  (i < size funcs)%nat.
Proof.
  intros (Hsub & _ & Hdisj & _ & Hwait & _) Hmain Hin.
  rewrite Hmain in Hwait. simpl in Hwait. subst i. unfold launched in Hsub.
  apply subset_size. split; [set_solver|].
  intros Hall. apply (Hdisj name); [set_solver|]. apply Hall. set_solver.
Qed.

(** X17: [Run] returns [nil] only at its last statement: [untagRunner]
    returned [nil] just before, [deleteRouterRunner] returned [nil] earlier,
    the name of every entry of [deleteFuncs] has been received, and no
    runner has ended the process. *)
Theorem Run_returns_nil_only_after_every_stage
    (schedule : list Action) (s : RunState)
    (Hrun : execAll deleteFuncs initial schedule = Some s)
    (Hnil : main s = Returned None) :
  ∃ l, log s = l ++ [UntagDone None]
       ∧ RouterDone None ∈ l
       ∧ (∀ name, name ∈ deleteFuncs → Signal name ∈ l)
       ∧ noFatal l.
Proof.
  destruct (Run_reachable schedule s Hrun) as [Hinv Hout].
  destruct Hinv as (_ & _ & _ & Hsig & _).
  unfold outcomeFacts in Hout. rewrite Hnil in Hout.
  destruct Hout as (_ & _ & Hno & [(_ & _ & Hr)|[(l & err & _ & Hr & _)|Hret]]);
    [done|discriminate|].
  destruct Hret as (l & Hlog & Hdone & Hfin). exists l.
  split; [done|]. split; [done|]. split.
  - intros name Hin. rewrite <- Hfin in Hin. apply Hsig in Hin.
    rewrite Hlog in Hin. apply elem_of_app in Hin as [Hin|Hin]; [done|].
    apply list_elem_of_singleton in Hin. discriminate.
  - intros name Hin. apply (Hno name). rewrite Hlog. apply elem_of_app.
    by left.
Qed.

Lemma Run_returns_nil_only_after_every_stage_witness :
  ∃ s l, execAll deleteFuncs initial (fullSchedule deleteFuncNames) = Some s
         ∧ log s = l ++ [UntagDone None] ∧ RouterDone None ∈ l.
Proof.
  assert (∃ s, execAll deleteFuncs initial (fullSchedule deleteFuncNames)
               = Some s ∧ main s = Returned None) as (s & Hrun & Hmain)
    by (eexists; split; vm_compute; reflexivity).
  destruct (Run_returns_nil_only_after_every_stage
              (fullSchedule deleteFuncNames) s Hrun Hmain)
    as (l & Hlog & Hdone & _).
  exists s, l. exact (conj Hrun (conj Hlog Hdone)).
Defined.

(** X18: an error returned by [Run] is the error of the stage that ended
    it.  Either [validateCloud] failed, and then no goroutine was started
    and nothing was recorded; or [deleteRouterRunner] returned this error as
    the last event, and [untagRunner] was not called; or [untagRunner]
    returned it as the last event, after [deleteRouterRunner] had returned
    [nil]. *)
Theorem Run_error_is_of_the_stage_that_ended_it
    (schedule : list Action) (s : RunState) (err : error)
    (Hrun : execAll deleteFuncs initial schedule = Some s)
    (Herr : main s = Returned (Some err)) :
  (log s = [] ∧ launched s = ∅)
  ∨ (∃ l, log s = l ++ [RouterDone (Some err)] ∧ (UntagStart ∉ l)
          ∧ finished s = deleteFuncs)
  ∨ (∃ l, log s = l ++ [UntagDone (Some err)] ∧ RouterDone None ∈ l
          ∧ finished s = deleteFuncs).
Proof.
  destruct (Run_reachable schedule s Hrun) as [_ Hout].
  unfold outcomeFacts in Hout. rewrite Herr in Hout.
  destruct Hout
    as (_ & _ & _ & [(? & ? & _)|[(l & err' & Hlog & Hr & Hun & Hf)|Hret]]).
  - by left.
  - right. left. injection Hr as ->. by exists l.
  - by right; right.
Qed.

Lemma Run_error_is_of_the_stage_that_ended_it_witness :
  ∃ s, execAll deleteFuncs initial
         (invalidCloudSchedule (ErrMessage "no network service")) = Some s
       ∧ log s = [] ∧ launched s = ∅.
Proof.
  eexists. split; [reflexivity|].
  destruct (Run_error_is_of_the_stage_that_ended_it
              (invalidCloudSchedule (ErrMessage "no network service")) _
              (ErrMessage "no network service") eq_refl eq_refl)
    as [Hval|[(l & Hlog & _)|(l & Hlog & _)]].
  - exact Hval.
  - by destruct l.
  - by destruct l.
Defined.

(** X19: when [Run] has returned, with or without an error, no
    [deleteRunner] goroutine is left in its back-off loop or blocked on the
    channel, and nothing more happens. *)
Theorem Run_leaves_no_goroutine_behind
    (schedule : list Action) (s : RunState) (r : option error)
    (Hrun : execAll deleteFuncs initial schedule = Some s)
    (Hret : main s = Returned r) :
  running s = ∅ ∧ sending s = ∅
  ∧ (finished s = ∅ ∨ finished s = deleteFuncs)
  ∧ ∀ a, exec deleteFuncs s a = None.
Proof.
  destruct (Run_reachable schedule s Hrun) as [_ Hout].
  unfold outcomeFacts in Hout. rewrite Hret in Hout.
  destruct Hout as (Hrunning & Hsending & _ & Hfacts).
  split; [done|]. split; [done|]. split.
  - destruct Hfacts as [(Hl & _)|[(l & err & _ & _ & _ & ?)|(l & _ & _ & ?)]];
      [|by right..].
    left. unfold launched in Hl. by apply empty_union_L in Hl as [_ ?].
  - intros a. by eapply Returned_stuck.
Qed.

Lemma Run_leaves_no_goroutine_behind_witness :
  ∃ s, execAll deleteFuncs initial (fullSchedule deleteFuncNames) = Some s
       ∧ running s = ∅ ∧ sending s = ∅.
Proof.
  assert (∃ s, execAll deleteFuncs initial (fullSchedule deleteFuncNames)
               = Some s ∧ main s = Returned None) as (s & Hrun & Hmain)
    by (eexists; split; vm_compute; reflexivity).
  destruct (Run_leaves_no_goroutine_behind (fullSchedule deleteFuncNames) s
              None Hrun Hmain) as (Hrunning & Hsending & _).
  exists s. exact (conj Hrun (conj Hrunning Hsending)).
Defined.



(** X21: [Run] cannot deadlock.  Until [Run] returns or a runner ends the
    process, some step is always possible: the receive loop waits for
    exactly as many names as goroutines were started, so while it waits a
    runner is still in its back-off loop or ready to send; and a runner that
    is ready to send while the main goroutine is in the receive loop can
    always be received. *)
Theorem Run_never_deadlocks
    (schedule : list Action) (s : RunState)
    (Hrun : execAll deleteFuncs initial schedule = Some s) :
  ((∀ r, main s ≠ Returned r) → main s ≠ Exited →
   ∃ a s', exec deleteFuncs s a = Some s')
  ∧ (∀ i name, main s = Waiting i → name ∈ sending s →
     ∃ s', exec deleteFuncs s (AReceive name) = Some s').
Proof.
  destruct (Run_reachable schedule s Hrun) as [Hinv Hout].
  assert (Hreceive : ∀ i name, main s = Waiting i → name ∈ sending s →
            ∃ s', exec deleteFuncs s (AReceive name) = Some s').
  { intros i name Hmain Hin.
    pose proof (sender_can_be_received _ _ _ _ Hinv Hmain Hin) as Hlt.
    unfold exec. rewrite Hmain. rewrite decide_True by done. by eexists. }
  split; [|done]. intros Hnot_returned Hnot_exited.
  destruct (main s) as [| |i| | | |r|] eqn:Hmain.
  - exists (AValidate None). unfold exec. rewrite Hmain. by eexists.
  - destruct (decide (deleteFuncs ⊆ launched s)) as [Hall|Hnot].
    + exists AWait. unfold exec. rewrite Hmain.
      rewrite decide_True by done. by eexists.
    + destruct (set_choose_L (deleteFuncs ∖ launched s)) as [name Hname].
      { intros Hempty. by apply Hnot, difference_empty_subseteq. }
      apply elem_of_difference in Hname as [Hin Hnew].
      exists (ALaunch name). unfold exec. rewrite Hmain.
      rewrite decide_True by done. by eexists.
  - destruct (decide (i < size deleteFuncs)%nat) as [Hlt|Hge].
    + destruct (decide (running s ∪ sending s = ∅)) as [Hidle|Hbusy].
      * exfalso. destruct Hinv as (Hsub & _ & _ & _ & Hwait & _).
        unfold outcomeFacts in Hout. rewrite Hmain in Hout, Hwait.
        destruct Hout as [Hall _]. simpl in Hwait.
        unfold launched in Hsub, Hall. rewrite Hidle in Hsub, Hall.
        rewrite union_empty_l_L in Hsub, Hall.
        assert (finished s = deleteFuncs) as Heq
          by (apply leibniz_equiv; split; [apply Hsub|apply Hall]).
        rewrite Heq in Hwait. lia.
      * destruct (set_choose_L _ Hbusy) as [name Hname].
        apply elem_of_union in Hname as [Hin|Hin].
        -- exists (ABackoff name None). unfold exec. rewrite Hmain.
           rewrite decide_True by done. by eexists.
        -- exists (AReceive name). by apply (Hreceive i).
    + exists AStartRouters. unfold exec. rewrite Hmain.
      rewrite decide_False by done. by eexists.
  - exists (ARouters None). unfold exec. rewrite Hmain. by eexists.
  - exists AStartUntag. unfold exec. rewrite Hmain. by eexists.
  - exists (AUntag None). unfold exec. rewrite Hmain. by eexists.
  - by destruct (Hnot_returned r).
  - done.
Qed.

Lemma Run_never_deadlocks_witness :
  ∃ s a s', execAll deleteFuncs initial
              ([AValidate None] ++ map ALaunch deleteFuncNames) = Some s
            ∧ exec deleteFuncs s a = Some s'.
Proof.
  assert (∃ s, execAll deleteFuncs initial
                 ([AValidate None] ++ map ALaunch deleteFuncNames) = Some s
               ∧ main s = Launching) as (s & Hrun & Hmain)
    by (eexists; split; vm_compute; reflexivity).
  destruct (proj1 (Run_never_deadlocks _ s Hrun)) as (a & s' & Hstep).
  - intros r. rewrite Hmain. discriminate.
  - rewrite Hmain. discriminate.
  - exists s, a, s'. exact (conj Hrun Hstep).
Defined.

(** ** Router interfaces: the outcome of the loops *)

Section RouterInterfacesOutcome.

Variable cloud : Cloud.
Variables (routerID : string) (clusterRouter : bool).
Variable allSubnets : list subnets.Subnet.

Lemma wasRemoved_insert st subnetID numberDeleted' custom s :
  wasRemoved st s = true →
  wasRemoved (mkRemoveState numberDeleted' custom
                (<[subnetID:=true]> (removedSubnets st))) s = true.
Proof.
  unfold wasRemoved. simpl. intros Hs.
  destruct (decide (subnetID = s)) as [->|Hne].
  - by rewrite lookup_insert_eq.
  - by rewrite lookup_insert_ne.
Qed.

Lemma fixedIPsLoop_outcome port fixedIPs st t :
  ∃ calls,
    snd (fixedIPsLoop cloud routerID clusterRouter allSubnets port
           fixedIPs st t) = (t ++ calls)%list
    ∧ match fst (fixedIPsLoop cloud routerID clusterRouter allSubnets port
                   fixedIPs st t) with
      | Some st' =>
          answeredOrGone cloud t calls = true
          ∧ (∀ s, wasRemoved st s = true → wasRemoved st' s = true)
          ∧ (∀ IP, IP ∈ fixedIPs →
               negb clusterRouter &&
               negb (isClusterSubnet allSubnets (ports.SubnetID IP)) = false →
               wasRemoved st' (ports.SubnetID IP) = true)
      | None =>
          ∃ pre c, calls = (pre ++ [c])%list
            ∧ answeredOrGone cloud t pre = true
            ∧ answeredOrGone cloud (t ++ pre) [c] = false
      end.
Proof.
  revert st t. induction fixedIPs as [|IP rest IH]; intros st t.
  - exists []. simpl. rewrite app_nil_r. split; [done|]. split; [done|].
    split; [done|]. intros IP HIP. inversion HIP.
  - simpl.
    destruct (negb clusterRouter &&
              negb (isClusterSubnet allSubnets (ports.SubnetID IP))) eqn:Hc.
    { destruct (IH (mkRemoveState (numberDeleted st)
                      (customInterfaces st ++ [port])%list (removedSubnets st))
                   t) as (calls & Htr & Hres).
      exists calls. split; [done|]. destruct (fst _); [|done].
      destruct Hres as (Hok & Hmono & Hall). split; [done|].
      split; [done|]. intros IP0 HIP0 Hwanted.
      apply elem_of_cons in HIP0 as [->|HIP0]; [congruence|by apply Hall]. }
    destruct (wasRemoved st (ports.SubnetID IP)) eqn:Hwas; simpl.
    { destruct (IH st t) as (calls & Htr & Hres).
      exists calls. split; [done|]. destruct (fst _); [|done].
      destruct Hres as (Hok & Hmono & Hall). split; [done|].
      split; [done|]. intros IP0 HIP0 Hwanted.
      apply elem_of_cons in HIP0 as [->|HIP0]; [by apply Hmono|by apply Hall]. }
    unfold bind, call.
    set (c := RoutersRemoveInterface routerID (ports.SubnetID IP)).
    set (st' := mkRemoveState (S (numberDeleted st)) (customInterfaces st)
                  (<[ports.SubnetID IP:=true]> (removedSubnets st))).
    assert (Hgo : match errOf (cloud t c) with
                  | None => true
                  | Some err => ResponseCodeIs err StatusNotFound
                  end = true →
      ∃ calls,
        snd (fixedIPsLoop cloud routerID clusterRouter allSubnets port rest
               st' (t ++ [c])%list) = (t ++ calls)%list
        ∧ match fst (fixedIPsLoop cloud routerID clusterRouter allSubnets
                       port rest st' (t ++ [c])%list) with
          | Some st'' =>
              answeredOrGone cloud t calls = true
              ∧ (∀ s, wasRemoved st s = true → wasRemoved st'' s = true)
              ∧ (∀ IP0, IP0 ∈ IP :: rest →
                   negb clusterRouter &&
                   negb (isClusterSubnet allSubnets (ports.SubnetID IP0))
                   = false →
                   wasRemoved st'' (ports.SubnetID IP0) = true)
          | None =>
              ∃ pre c0, calls = (pre ++ [c0])%list
                ∧ answeredOrGone cloud t pre = true
                ∧ answeredOrGone cloud (t ++ pre) [c0] = false
          end).
    { intros Hanswered.
      destruct (IH st' (t ++ [c])%list) as (calls & Htr & Hres).
      exists (c :: calls). split; [by rewrite Htr, <- app_assoc|].
      destruct (fst _).
      - destruct Hres as (Hok & Hmono & Hall). split; [|split].
        + simpl. fold c. by rewrite Hanswered, Hok.
        + intros s Hs. apply Hmono. by apply wasRemoved_insert.
        + intros IP0 HIP0 Hwanted.
          apply elem_of_cons in HIP0 as [->|HIP0]; [|by apply Hall].
          apply Hmono. unfold wasRemoved, st'. simpl.
          by rewrite lookup_insert_eq.
      - destruct Hres as (pre & c0 & -> & Hpre & Hlast).
        exists (c :: pre), c0. split; [done|]. split.
        + simpl. fold c. by rewrite Hanswered, Hpre.
        + by rewrite <- app_assoc in Hlast. }
    destruct (errOf (cloud t c)) as [err|] eqn:Herr.
    + destruct (ResponseCodeIs err StatusNotFound) eqn:H404; simpl.
      * by apply Hgo.
      * exists [c]. split; [done|]. exists [], c. split; [done|].
        split; [done|]. simpl. rewrite app_nil_r. fold c.
        by rewrite Herr, H404.
    + by apply Hgo.
Qed.

Lemma routerPortsLoop_outcome allPorts st t :
  ∃ calls,
    snd (routerPortsLoop cloud routerID clusterRouter allSubnets allPorts st t)
      = (t ++ calls)%list
    ∧ match fst (routerPortsLoop cloud routerID clusterRouter allSubnets
                   allPorts st t) with
      | Some st' =>
          answeredOrGone cloud t calls = true
          ∧ (∀ s, wasRemoved st s = true → wasRemoved st' s = true)
          ∧ (∀ port IP, port ∈ allPorts → IP ∈ ports.FixedIPs port →
               negb clusterRouter &&
               negb (isClusterSubnet allSubnets (ports.SubnetID IP)) = false →
               wasRemoved st' (ports.SubnetID IP) = true)
      | None =>
          ∃ pre c, calls = (pre ++ [c])%list
            ∧ answeredOrGone cloud t pre = true
            ∧ answeredOrGone cloud (t ++ pre) [c] = false
      end.
Proof.
  revert st t. induction allPorts as [|port rest IH]; intros st t.
  - exists []. simpl. rewrite app_nil_r. split; [done|]. split; [done|].
    split; [done|]. intros port IP Hport. inversion Hport.
  - simpl. unfold bind.
    destruct (fixedIPsLoop_outcome port (ports.FixedIPs port) st t)
      as (calls1 & Htr1 & Hres1).
    destruct (fixedIPsLoop cloud routerID clusterRouter allSubnets port
                (ports.FixedIPs port) st t) as [r t1].
    simpl in Htr1, Hres1. subst t1. destruct r as [st1|]; simpl.
    + destruct Hres1 as (Hok1 & Hmono1 & Hall1).
      destruct (IH st1 (t ++ calls1)%list) as (calls2 & Htr2 & Hres2).
      exists (calls1 ++ calls2)%list. split; [by rewrite Htr2, app_assoc|].
      destruct (fst _).
      * destruct Hres2 as (Hok2 & Hmono2 & Hall2). split; [|split].
        -- by rewrite answeredOrGone_app, Hok1, Hok2.
        -- intros s Hs. by apply Hmono2, Hmono1.
        -- intros port0 IP Hport HIP Hwanted.
           apply elem_of_cons in Hport as [->|Hport].
           ++ by apply Hmono2, Hall1.
           ++ by apply (Hall2 port0).
      * destruct Hres2 as (pre & c & -> & Hpre & Hlast).
        exists (calls1 ++ pre)%list, c. split; [by rewrite app_assoc|].
        split; [by rewrite answeredOrGone_app, Hok1, Hpre|].
        by rewrite app_assoc.
    + exists calls1. done.
Qed.

End RouterInterfacesOutcome.

(** X22: when no detach call of [removeRouterInterfaces] is answered with an
    error other than not-found, the function returns no error and has asked
    to detach the subnet of every fixed IP that the skip test of the loop
    does not set aside: on a router with the cluster-ID tag every subnet of
    every interface port, on another router every subnet of the
    cluster-tagged list. *)
Theorem removeRouterInterfaces_detaches_every_wanted_subnet
    (cloud : Cloud) (filter : gmap string string) (router : routers.Router)
    (t : Trace) (allPorts : list ports.Port)
    (allSubnets : list subnets.Subnet)
    (Hports : cloud t (PortsList (ports.mkOpts "" (routers.ID router) ""))
              = Ports allPorts)
    (Hsubnets :
       cloud (t ++ [PortsList (ports.mkOpts "" (routers.ID router) "")])%list
         (SubnetsList (Join (filterTags filter) ","))
       = Subnets allSubnets)
    (Hgood : ∀ t' subnetID err,
       errOf (cloud t' (RoutersRemoveInterface (routers.ID router) subnetID))
       = Some err →
       ResponseCodeIs err StatusNotFound = true) :
  let clusterRouter :=
    isClusterRouter ("openshiftClusterID=" +:+ index filter "openshiftClusterID")
      (routers.Tags router) in
  snd (fst (removeRouterInterfaces cloud filter router t)) = None
  ∧ ∀ port IP, port ∈ allPorts → IP ∈ ports.FixedIPs port →
      negb clusterRouter &&
      negb (isClusterSubnet allSubnets (ports.SubnetID IP)) = false →
      RoutersRemoveInterface (routers.ID router) (ports.SubnetID IP)
        ∈ snd (removeRouterInterfaces cloud filter router t).
Proof.
  intros clusterRouter.
  set (listed :=
    ((t ++ [PortsList (ports.mkOpts "" (routers.ID router) "")]) ++
     [SubnetsList (Join (filterTags filter) ",")])%list).
  assert (Hinit : removeInv [] (mkRemoveState 0 [] ∅)).
  { split; [apply NoDup_nil_2|]. split; [|done]. intros s.
    unfold wasRemoved. simpl. rewrite lookup_empty. simpl.
    split; [done|]. intros H. inversion H. }
  destruct (routerPortsLoop_inv cloud (routers.ID router) clusterRouter
              allSubnets allPorts (mkRemoveState 0 [] ∅) listed [] Hinit)
    as (removed & Htr & _ & _ & Hres).
  destruct (routerPortsLoop_outcome cloud (routers.ID router) clusterRouter
              allSubnets allPorts (mkRemoveState 0 [] ∅) listed)
    as (calls & Htr' & Hout).
  unfold removeRouterInterfaces, bind, call. rewrite Hports, Hsubnets.
  fold clusterRouter. fold listed.
  destruct (routerPortsLoop cloud (routers.ID router) clusterRouter
              allSubnets allPorts (mkRemoveState 0 [] ∅) listed)
    as [r t1].
  simpl in Htr, Htr', Hres, Hout. subst t1.
  apply app_inv_head in Htr' as Hcalls.
  destruct r as [st|]; simpl.
  - split; [done|]. intros port IP Hport HIP Hwanted.
    destruct Hout as (_ & _ & Hall). destruct Hres as [(_ & Hwas & _) _].
    apply elem_of_app. right. apply list_elem_of_fmap.
    exists (ports.SubnetID IP). split; [done|].
    apply (Hwas (ports.SubnetID IP)). by apply (Hall port).
  - exfalso. destruct Hout as (pre & c & Hc & _ & Hlast).
    assert (Hin : c ∈ map (RoutersRemoveInterface (routers.ID router)) removed).
    { rewrite Hcalls, Hc. apply elem_of_app. right. by left. }
    apply list_elem_of_fmap in Hin as (s & -> & _).
    simpl in Hlast. rewrite andb_true_r in Hlast.
    destruct (errOf _) as [err|] eqn:Herr; [|done].
    by rewrite (Hgood _ _ _ Herr) in Hlast.
Qed.

Lemma removeRouterInterfaces_detaches_every_wanted_subnet_witness :
  RoutersRemoveInterface "r1" "sub1"
    ∈ snd (removeRouterInterfaces foreignRouterCloud abcFilter foreignRouter []).
Proof.
  refine (proj2 (removeRouterInterfaces_detaches_every_wanted_subnet
                   foreignRouterCloud abcFilter foreignRouter []
                   [ports.mk "p1" "r1" []
                      [ports.mkIP "sub1" "10.0.0.1";
                       ports.mkIP "sub1" "10.0.0.2"];
                    ports.mk "p2" "r1" [] [ports.mkIP "user1" "192.168.0.1"]]
                   [subnets.mk "sub1"] eq_refl eq_refl _)
            (ports.mk "p1" "r1" []
               [ports.mkIP "sub1" "10.0.0.1"; ports.mkIP "sub1" "10.0.0.2"])
            (ports.mkIP "sub1" "10.0.0.2") _ _ _).
  - intros t' subnetID err Herr. discriminate Herr.
  - by left.
  - simpl. right. by left.
  - reflexivity.
Defined.

(** X23: [removeRouterInterfaces] stops at the first detach call that is
    answered with an error other than not-found: it makes no call after it
    and returns [(false, nil)], whatever is left of the ports and of their
    fixed IPs. *)
Theorem removeRouterInterfaces_stops_at_failed_detach
    (cloud : Cloud) (filter : gmap string string) (router : routers.Router)
    (t : Trace) (allPorts : list ports.Port)
    (allSubnets : list subnets.Subnet)
    (pre post : list Call) (c : Call) (err : error)
    (Hports : cloud t (PortsList (ports.mkOpts "" (routers.ID router) ""))
              = Ports allPorts)
    (Hsubnets :
       cloud (t ++ [PortsList (ports.mkOpts "" (routers.ID router) "")])%list
         (SubnetsList (Join (filterTags filter) ","))
       = Subnets allSubnets)
    (Htrace :
       snd (removeRouterInterfaces cloud filter router t) =
       ((t ++ [PortsList (ports.mkOpts "" (routers.ID router) "");
               SubnetsList (Join (filterTags filter) ",")])
        ++ pre ++ c :: post)%list)
    (Herr :
       errOf (cloud ((t ++ [PortsList (ports.mkOpts "" (routers.ID router) "");
                            SubnetsList (Join (filterTags filter) ",")])
                     ++ pre)%list c) = Some err)
    (Hcode : ResponseCodeIs err StatusNotFound = false) :
  post = [] ∧ fst (removeRouterInterfaces cloud filter router t) = (false, None).
Proof.
  set (clusterRouter :=
    isClusterRouter ("openshiftClusterID=" +:+ index filter "openshiftClusterID")
      (routers.Tags router)).
  assert (Hl :
    (t ++ [PortsList (ports.mkOpts "" (routers.ID router) "");
           SubnetsList (Join (filterTags filter) ",")])%list =
    ((t ++ [PortsList (ports.mkOpts "" (routers.ID router) "")]) ++
     [SubnetsList (Join (filterTags filter) ",")])%list)
    by (by rewrite <- app_assoc).
  rewrite Hl in Htrace, Herr.
  set (listed :=
    ((t ++ [PortsList (ports.mkOpts "" (routers.ID router) "")]) ++
     [SubnetsList (Join (filterTags filter) ",")])%list) in *.
  destruct (routerPortsLoop_outcome cloud (routers.ID router) clusterRouter
              allSubnets allPorts (mkRemoveState 0 [] ∅) listed)
    as (calls & Htr & Hout).
  revert Htrace.
  unfold removeRouterInterfaces, bind, call. rewrite Hports, Hsubnets.
  fold clusterRouter. fold listed.
  destruct (routerPortsLoop cloud (routers.ID router) clusterRouter
              allSubnets allPorts (mkRemoveState 0 [] ∅) listed)
    as [r t1].
  simpl in Htr, Hout. subst t1.
  assert (Hbad : ∀ rest, answeredOrGone cloud listed (pre ++ c :: rest) = true
                         → False).
  { intros rest Hok. rewrite answeredOrGone_app in Hok.
    apply andb_true_iff in Hok as [_ Hok]. simpl in Hok.
    by rewrite Herr, Hcode in Hok. }
  destruct r as [st|]; simpl; intros Htrace;
    apply app_inv_head in Htrace as ->.
  - exfalso. destruct Hout as (Hok & _). by apply (Hbad post).
  - destruct Hout as (pre' & c' & Heq & Hpre & _).
    symmetry in Heq.
    apply snoc_split in Heq as [(-> & _ & _)|(post' & _ & ->)]; [done|].
    exfalso. by apply (Hbad post').
Qed.

Lemma removeRouterInterfaces_stops_at_failed_detach_witness :
  fst (removeRouterInterfaces busyRouterCloud abcFilter clusterRouter1 [])
  = (false, None).
Proof.
  refine (proj2 (removeRouterInterfaces_stops_at_failed_detach
                   busyRouterCloud abcFilter clusterRouter1 []
                   [ports.mk "p1" "r1" [] [ports.mkIP "sub1" "10.0.0.1"];
                    ports.mk "p2" "r1" [] [ports.mkIP "sub2" "10.0.1.1"]]
                   [subnets.mk "sub1"; subnets.mk "sub2"]
                   [] [] (RoutersRemoveInterface "r1" "sub1")
                   (ErrUnexpectedResponseCode 409) _ _ _ _ _)).
  - reflexivity.
  - reflexivity.
  - vm_compute. reflexivity.
  - reflexivity.
  - reflexivity.
Defined.

(** ** Loops over floating IPs *)

Section FloatingIPLoops.

Variable cloud : Cloud.

Lemma firstErrorRun_cons mk fip rest t out :
  match errOf (cloud t (mk fip)) with
  | None => true
  | Some err => ResponseCodeIs err StatusNotFound
  end = true →
  firstErrorRun cloud mk rest (t ++ [mk fip])%list out →
  firstErrorRun cloud mk (fip :: rest) t out.
Proof.
  unfold firstErrorRun. intros Hok Hrun. destruct (fst out) as [err|].
  - destruct Hrun as (done & fip' & rest' & -> & Htr & Hans & Herr & Hcode).
    exists (fip :: done), fip', rest'. split; [done|].
    rewrite <- app_assoc in Htr, Herr. split; [done|].
    split; [|by split]. simpl. by rewrite Hok, Hans.
  - destruct Hrun as [Htr Hans]. rewrite <- app_assoc in Htr.
    split; [done|]. simpl. by rewrite Hok, Hans.
Qed.

Lemma firstErrorRun_stop mk fip rest t err :
  errOf (cloud t (mk fip)) = Some err →
  ResponseCodeIs err StatusNotFound = false →
  firstErrorRun cloud mk (fip :: rest) t (Some err, (t ++ [mk fip])%list).
Proof.
  intros Herr Hcode. exists [], fip, rest. simpl. rewrite app_nil_r. done.
Qed.

Lemma updateFips_loop_run allFIPs t :
  firstErrorRun cloud (λ fip, FloatingIPsUpdate (floatingips.ID fip)) allFIPs t
    (updateFips_loop cloud allFIPs t).
Proof.
  revert t. induction allFIPs as [|fip rest IH]; intros t.
  - unfold firstErrorRun. simpl. by rewrite app_nil_r.
  - simpl. unfold bind, call.
    destruct (errOf (cloud t (FloatingIPsUpdate (floatingips.ID fip))))
      as [err|] eqn:Herr.
    + destruct (ResponseCodeIs err StatusNotFound) eqn:Hcode; simpl.
      * apply firstErrorRun_cons; [by rewrite Herr|apply IH].
      * by apply firstErrorRun_stop.
    + apply firstErrorRun_cons; [by rewrite Herr|apply IH].
Qed.

Lemma deletePortFIPs_loop_run fips t :
  firstErrorRun cloud (λ fip, FloatingIPsDelete (floatingips.ID fip)) fips t
    (deletePortFIPs_loop cloud fips t).
Proof.
  revert t. induction fips as [|fip rest IH]; intros t.
  - unfold firstErrorRun. simpl. by rewrite app_nil_r.
  - simpl. unfold bind, call.
    destruct (errOf (cloud t (FloatingIPsDelete (floatingips.ID fip))))
      as [err|] eqn:Herr.
    + destruct (ResponseCodeIs err StatusNotFound) eqn:Hcode; simpl.
      * apply firstErrorRun_cons; [by rewrite Herr|apply IH].
      * by apply firstErrorRun_stop.
    + apply firstErrorRun_cons; [by rewrite Herr|apply IH].
Qed.

End FloatingIPLoops.

(** X24: once its client is built, [updateFips] updates the floating IPs in
    the order of the list, goes on after a not-found answer, and stops at
    the first update answered with another error, which it returns
    unchanged; it returns [nil] only when every floating IP of the list was
    updated or found gone. *)
Theorem updateFips_returns_first_error
    (cloud : Cloud) (allFIPs : list floatingips.FloatingIP) (t : Trace)
    (Hconn : errOf (cloud t (NewServiceClient "network")) = None) :
  let update := λ fip, FloatingIPsUpdate (floatingips.ID fip) in
  let t0 := (t ++ [NewServiceClient "network"])%list in
  match fst (updateFips cloud allFIPs t) with
  | None =>
      snd (updateFips cloud allFIPs t) = (t0 ++ map update allFIPs)%list
      ∧ answeredOrGone cloud t0 (map update allFIPs) = true
  | Some err =>
      ∃ done fip rest,
        allFIPs = (done ++ fip :: rest)%list
        ∧ snd (updateFips cloud allFIPs t)
          = (t0 ++ map update (done ++ [fip]))%list
        ∧ answeredOrGone cloud t0 (map update done) = true
        ∧ errOf (cloud (t0 ++ map update done)%list (update fip)) = Some err
        ∧ ResponseCodeIs err StatusNotFound = false
  end.
Proof.
  intros update t0.
  pose proof (updateFips_loop_run cloud allFIPs t0) as Hrun.
  unfold updateFips, bind, call. rewrite Hconn. exact Hrun.
Qed.

Lemma updateFips_returns_first_error_witness :
  ∃ done fip rest,
    threeFIPs = (done ++ fip :: rest)%list
    ∧ snd (updateFips stuckFIPCloud threeFIPs [])
      = ([NewServiceClient "network"]
         ++ map (λ fip, FloatingIPsUpdate (floatingips.ID fip))
              (done ++ [fip]))%list
    ∧ errOf (stuckFIPCloud
               ([NewServiceClient "network"]
                ++ map (λ fip, FloatingIPsUpdate (floatingips.ID fip)) done)
               (FloatingIPsUpdate (floatingips.ID fip)))
      = Some (ErrUnexpectedResponseCode 409).
Proof.
  pose proof (updateFips_returns_first_error stuckFIPCloud threeFIPs []
                eq_refl) as Hrun.
  simpl in Hrun.
  destruct Hrun as (done & fip & rest & Hsplit & Htrace & _ & Herr & _).
  exists done, fip, rest. exact (conj Hsplit (conj Htrace Herr)).
Defined.

(** X25: once its client is built and the floating IPs of the port are
    listed, [deletePortFIPs] deletes them in the order of the list, goes on
    after a not-found answer, and stops at the first delete answered with
    another error, which it returns unchanged; it returns [nil] only when
    every listed floating IP was deleted or found gone. *)
Theorem deletePortFIPs_returns_first_error
    (cloud : Cloud) (portID : string) (fips : list floatingips.FloatingIP)
    (t : Trace)
    (Hconn : errOf (cloud t (NewServiceClient "network")) = None)
    (Hlist : cloud (t ++ [NewServiceClient "network"])%list
               (FloatingIPsList (floatingips.mkOpts portID))
             = FloatingIPs fips) :
  let delete := λ fip, FloatingIPsDelete (floatingips.ID fip) in
  let t0 := (t ++ [NewServiceClient "network";
                   FloatingIPsList (floatingips.mkOpts portID)])%list in
  match fst (deletePortFIPs cloud portID t) with
  | None =>
      snd (deletePortFIPs cloud portID t) = (t0 ++ map delete fips)%list
      ∧ answeredOrGone cloud t0 (map delete fips) = true
  | Some err =>
      ∃ done fip rest,
        fips = (done ++ fip :: rest)%list
        ∧ snd (deletePortFIPs cloud portID t)
          = (t0 ++ map delete (done ++ [fip]))%list
        ∧ answeredOrGone cloud t0 (map delete done) = true
        ∧ errOf (cloud (t0 ++ map delete done)%list (delete fip)) = Some err
        ∧ ResponseCodeIs err StatusNotFound = false
  end.
Proof.
  intros delete t0.
  pose proof (deletePortFIPs_loop_run cloud fips t0) as Hrun.
  unfold deletePortFIPs, bind, call. rewrite Hconn, Hlist.
  rewrite <- (app_assoc t [NewServiceClient "network"]
                [FloatingIPsList (floatingips.mkOpts portID)]).
  exact Hrun.
Qed.

Lemma deletePortFIPs_returns_first_error_witness :
  ∃ done fip rest,
    threeFIPs = (done ++ fip :: rest)%list
    ∧ snd (deletePortFIPs stuckFIPCloud "p1" [])
      = ([NewServiceClient "network";
          FloatingIPsList (floatingips.mkOpts "p1")]
         ++ map (λ fip, FloatingIPsDelete (floatingips.ID fip))
              (done ++ [fip]))%list.
Proof.
  pose proof (deletePortFIPs_returns_first_error stuckFIPCloud "p1" threeFIPs
                [] eq_refl eq_refl) as Hrun.
  simpl in Hrun.
  destruct Hrun as (done & fip & rest & Hsplit & Htrace & _).
  exists done, fip, rest. exact (conj Hsplit Htrace).
Defined.

(** In the cloud of the example [fip1] is found gone, [fip2] is refused, and
    [fip3] is not touched. *)
Example updateFips_run :
  updateFips stuckFIPCloud threeFIPs []
  = (Some (ErrUnexpectedResponseCode 409),
     [NewServiceClient "network"; FloatingIPsUpdate "fip1";
      FloatingIPsUpdate "fip2"]).
Proof. vm_compute. reflexivity. Qed.
